(** * TXT_to_CSV_script.py: text-to-CSV normaliser

    A shallow embedding of [src/TXT_to_CSV_script.py] and the properties
    of its separator detector, date normaliser and record transformer.

    Python [str] values are lists of Unicode code points.  Exceptions are
    explicit: a computation yields an [outcome], and stateful code threads
    a [world] (file system, console input, the calls made to [re.compile]).
    What belongs to the interpreter rather than to the script (the regex
    engine, the Unicode digit and case tables, the digit limit of [int],
    the presence of [tqdm], [pathlib]'s naming) is a Section variable, and
    so is the interactive file chooser [_select_file] for [main]; its own
    model takes the listing of directories as one.  What [os.stat] and
    [Path.resolve()] answer belongs to the world.  Console output,
    logging and the progress bar's display are left out, and so is the
    text of the CSV file: a file written through [csv.writer] is kept as
    the rows handed to [writerow]. *)

From Stdlib Require Import ZArith NArith Ascii String Lia Bool Sorting.Sorted.
From stdpp Require Import base option list gmap.

Local Open Scope N_scope.

(** ** Strings *)

Abbreviation char := N (only parsing).
Abbreviation str := (list N) (only parsing).

(** An ASCII literal as a Python string. *)
Definition u (s : string) : str := map N_of_ascii (list_ascii_of_string s).

(** [Py_UNICODE_ISSPACE]: the code points [str.strip()] removes. *)
Definition is_space (c : char) : bool :=
  ((0x09 <=? c) && (c <=? 0x0D)) || ((0x1C <=? c) && (c <=? 0x20))
  || (c =? 0x85) || (c =? 0xA0) || (c =? 0x1680)
  || ((0x2000 <=? c) && (c <=? 0x200A))
  || (c =? 0x2028) || (c =? 0x2029) || (c =? 0x202F) || (c =? 0x205F)
  || (c =? 0x3000).

Fixpoint lstrip_by (p : char -> bool) (s : str) : str :=
  match s with
  | [] => []
  | c :: s' => if p c then lstrip_by p s' else s
  end.

Definition rstrip_by (p : char -> bool) (s : str) : str :=
  rev (lstrip_by p (rev s)).

(** [s.strip()] *)
Definition strip (s : str) : str := rstrip_by is_space (lstrip_by is_space s).

(** [s.rstrip('\n')] *)
Definition rstrip_nl (s : str) : str := rstrip_by (N.eqb 0x0A) s.

(** [s.split(sep)] for a one-character separator. *)
Fixpoint split_char (sep : char) (s : str) : list str :=
  match s with
  | [] => [[]]
  | c :: s' =>
      if c =? sep then [] :: split_char sep s'
      else match split_char sep s' with
           | p :: ps => (c :: p) :: ps
           | [] => [[c]]
           end
  end.

(** [sep.join(ps)] for a one-character separator. *)
Fixpoint join_char (sep : char) (ps : list str) : str :=
  match ps with
  | [] => []
  | [p] => p
  | p :: ps' => p ++ sep :: join_char sep ps'
  end.

(** [s.count(sub)]: non-overlapping occurrences, scanning left to right.
    [skip] counts the characters still covered by the last match. *)
Fixpoint is_prefix (sub s : str) : bool :=
  match sub, s with
  | [], _ => true
  | a :: sub', b :: s' => (a =? b) && is_prefix sub' s'
  | _ :: _, [] => false
  end.

Fixpoint count_from (sub s : str) (skip : nat) : nat :=
  match s with
  | [] => 0%nat
  | _ :: s' =>
      match skip with
      | S k => count_from sub s' k
      | O => if is_prefix sub s
             then S (count_from sub s' (length sub - 1))
             else count_from sub s' 0
      end
  end.

Definition str_count (s sub : str) : nat :=
  match sub with
  | [] => S (length s)
  | _ => count_from sub s 0
  end.

Fixpoint startswith_any (s : str) (prefixes : list str) : bool :=
  match prefixes with
  | [] => false
  | p :: ps => is_prefix p s || startswith_any s ps
  end.

(** ** Exceptions *)

Inductive exn :=
| ValueError | OverflowError | AttributeError | TypeError | KeyError
| IndexError | OSError | EOFError | RuntimeError | re_error
| SystemExit | KeyboardInterrupt.

(** [isinstance(e, Exception)]: [SystemExit] and [KeyboardInterrupt] derive
    from [BaseException] only. *)
Definition is_Exception (e : exn) : bool :=
  match e with
  | SystemExit | KeyboardInterrupt => false
  | _ => true
  end.

Inductive outcome (A : Type) :=
| Return (a : A)
| Raise (e : exn).
Arguments Return {A} a.
Arguments Raise {A} e.

Definition obind {A B} (o : outcome A) (k : A -> outcome B) : outcome B :=
  match o with
  | Return a => k a
  | Raise e => Raise e
  end.

#[global] Instance outcome_bind : MBind outcome := λ A B k o, obind o k.
#[global] Instance outcome_ret : MRet outcome := @Return.

(** [try: body / except Exception: handler] *)
Definition try_except_Exception {A} (body handler : outcome A) : outcome A :=
  match body with
  | Return a => Return a
  | Raise e => if is_Exception e then handler else Raise e
  end.

(** ** Module constants *)

Definition NULL : str := u "\N".
Definition COMMON_SEPARATORS : list str := [u "|"; u ","; u ";"; [0x09]].

(** ** Calendar dates: [datetime.date] *)

Local Open Scope Z_scope.

Record date := { year : Z; month : Z; day : Z }.

Definition is_leap (y : Z) : bool :=
  (y mod 4 =? 0) && (negb (y mod 100 =? 0) || (y mod 400 =? 0)).

Definition days_in_month (y m : Z) : Z :=
  if m =? 2 then (if is_leap y then 29 else 28)
  else if (m =? 4) || (m =? 6) || (m =? 9) || (m =? 11) then 30
  else 31.

Definition MINYEAR : Z := 1.
Definition MAXYEAR : Z := 9999.

Definition valid_date (y m d : Z) : bool :=
  (MINYEAR <=? y) && (y <=? MAXYEAR) && (1 <=? m) && (m <=? 12)
  && (1 <=? d) && (d <=? days_in_month y m).

(** The constructor takes C [int] arguments. *)
Definition fits_c_int (z : Z) : bool := (- 2 ^ 31 <=? z) && (z <=? 2 ^ 31 - 1).

Definition date_new (y m d : Z) : outcome date :=
  if negb (fits_c_int y && fits_c_int m && fits_c_int d) then Raise OverflowError
  else if valid_date y m d then Return {| year := y; month := m; day := d |}
  else Raise ValueError.

Fixpoint uint_chars (d : Decimal.uint) : str :=
  match d with
  | Decimal.Nil => []
  | Decimal.D0 d => 0x30%N :: uint_chars d
  | Decimal.D1 d => 0x31%N :: uint_chars d
  | Decimal.D2 d => 0x32%N :: uint_chars d
  | Decimal.D3 d => 0x33%N :: uint_chars d
  | Decimal.D4 d => 0x34%N :: uint_chars d
  | Decimal.D5 d => 0x35%N :: uint_chars d
  | Decimal.D6 d => 0x36%N :: uint_chars d
  | Decimal.D7 d => 0x37%N :: uint_chars d
  | Decimal.D8 d => 0x38%N :: uint_chars d
  | Decimal.D9 d => 0x39%N :: uint_chars d
  end.

(** ["%0<width>d" % n] for [0 <= n]. *)
Definition fmt_d (width : nat) (n : Z) : str :=
  let ds := uint_chars (N.to_uint (Z.to_N n)) in
  repeat 0x30%N (width - length ds) ++ ds.

(** [date.isoformat()]: ["%04d-%02d-%02d"]. *)
Definition isoformat (dt : date) : str :=
  fmt_d 4 (year dt) ++ u "-" ++ fmt_d 2 (month dt) ++ u "-" ++ fmt_d 2 (day dt).

(** ** The built-in [int(str)] *)

Definition is_c_space (c : char) : bool :=
  (((0x09 <=? c) && (c <=? 0x0D)) || (c =? 0x20))%N.

Definition digit_val (c : char) : option Z :=
  if ((0x30 <=? c) && (c <=? 0x39))%N then Some (Z.of_N (c - 0x30)) else None.

(** Digits with single underscores between them; yields the value, the
    number of digits and what follows. *)
Fixpoint scan_digits (acc : Z) (n : nat) (prev_us : bool) (s : str)
  : option (Z * nat * str) :=
  match s with
  | [] => if prev_us then None else Some (acc, n, [])
  | c :: s' =>
      match digit_val c with
      | Some d => scan_digits (10 * acc + d) (S n) false s'
      | None =>
          if (c =? 0x5F)%N
          then (if prev_us then None else scan_digits acc n true s')
          else if prev_us then None else Some (acc, n, s)
      end
  end.

Section Interpreter.

(** [Py_UNICODE_TODECIMAL] on the non-ASCII code points. *)
Variable unicode_decimal : char -> option N.
(** [sys.get_int_max_str_digits()]; [0] when there is no limit. *)
Variable int_max_str_digits : nat.

(** [_PyUnicode_TransformDecimalAndSpaceToASCII], one code point. *)
Definition to_ascii_digit (c : char) : char :=
  (if c <? 127 then c
   else if is_space c then 0x20
   else match unicode_decimal c with
        | Some d => 0x30 + d
        | None => 0x3F
        end)%N.

(** The limit on the number of digits; it is not looked at below 641
    digits. *)
Definition over_digit_limit (n : nat) : bool :=
  ((0 <? int_max_str_digits) && (int_max_str_digits <? n) && (640 <? n))%nat.

(** [int(s)]: optional blanks, an optional sign, decimal digits, optional
    blanks; anything else is a [ValueError]. *)
Definition py_int (s : str) : outcome Z :=
  let b := lstrip_by is_c_space (map to_ascii_digit s) in
  let '(neg, b) :=
    match b with
    | c :: b' => if (c =? 0x2B)%N then (false, b')
                 else if (c =? 0x2D)%N then (true, b')
                 else (false, b)
    | [] => (false, b)
    end in
  match b with
  | [] => Raise ValueError
  | c :: _ =>
      if (c =? 0x5F)%N then Raise ValueError
      else match scan_digits 0 0 false b with
           | None => Raise ValueError
           | Some (v, n, rest) =>
               if (n =? 0)%nat then Raise ValueError
               else if over_digit_limit n then Raise ValueError
               else match lstrip_by is_c_space rest with
                    | [] => Return (if neg : bool then - v else v)
                    | _ :: _ => Raise ValueError
                    end
           end
  end.

(** ** [_safe_iso] *)

(** The body of the [try]: [Some s] when it reaches [return s], [None]
    when it falls through to the code after the [try] statement. *)
Definition _safe_iso_try (raw : str) : outcome (option str) :=
  match split_char 0x2E%N raw with
  | [d; m; y] =>
      if (length y =? 4)%nat then
        yy ← py_int y;
        mm ← py_int m;
        dd ← py_int d;
        dte ← date_new yy mm dd;
        Return (Some (isoformat dte))
      else Return None
  | _ => Raise ValueError
  end.

Definition _safe_iso (raw : str) : outcome str :=
  let raw := strip raw in
  r ← try_except_Exception (_safe_iso_try raw) (Return None);
  match r with
  | Some s => Return s
  | None => Return NULL
  end.

End Interpreter.

(** ** [_guess_separator] *)

(** A [dict] keeps its keys in insertion order; assigning to a key that is
    present keeps the key's place. *)
Fixpoint dict_set {V} (k : str) (v : V) (d : list (str * V)) : list (str * V) :=
  match d with
  | [] => [(k, v)]
  | (k', v') :: d' =>
      if decide (k' = k) then (k, v) :: d' else (k', v') :: dict_set k v d'
  end.

Fixpoint dict_get {V} (d : list (str * V)) (k : str) : outcome V :=
  match d with
  | [] => Raise KeyError
  | (k', v) :: d' => if decide (k' = k) then Return v else dict_get d' k
  end.

(** [max(items, key=key)]: the first item whose key is maximal. *)
Fixpoint max_from {A} (key : A -> nat) (best : A) (items : list A) : A :=
  match items with
  | [] => best
  | x :: items' =>
      max_from key (if (key best <? key x)%nat then x else best) items'
  end.

Definition py_max {A} (key : A -> nat) (items : list A) : outcome A :=
  match items with
  | [] => Raise ValueError
  | x :: items' => Return (max_from key x items')
  end.

Definition separator_counts (first_line : str) : list (str * nat) :=
  fold_left
    (fun counts sep =>
       dict_set sep
         (str_count first_line (if decide (sep <> u "\t") then sep else [0x09%N]))
         counts)
    COMMON_SEPARATORS [].

Definition _guess_separator (first_line : str) : outcome str :=
  let counts := separator_counts first_line in
  best ← py_max snd counts;
  Return (fst best).

(** ** The record transformer, one line *)

(** A compiled pattern, seen through its [split] method.  A capturing group
    that takes no part in a match contributes [None] to the result. *)
Definition Pattern : Type := str -> list (option str).

(** [f.strip() if f.strip() else NULL] *)
Definition null_if_empty (f : option str) : outcome str :=
  match f with
  | None => Raise AttributeError
  | Some s => Return (match strip s with [] => NULL | t => t end)
  end.

Section Transformer.

Variable unicode_decimal : char -> option N.
Variable int_max_str_digits : nat.
(** [str.lower()] on the non-ASCII code points. *)
Variable unicode_lower : char -> str.

Definition lower_char (c : char) : str :=
  (if (0x41 <=? c) && (c <=? 0x5A) then [c + 0x20]
   else if c <? 0x80 then [c]
   else unicode_lower c)%N.

Definition lower (s : str) : str := flat_map lower_char s.

Definition is_date_column (c : str) : bool :=
  bool_decide (lower c ∈ [u "birthday"; u "date"]).

(** [{i for i, c in enumerate(columns) if c.lower() in {'birthday', 'date'}}],
    listed in increasing order; the order in which the loop below visits
    the set does not matter, see [normalise_dates_any_order]. *)
Definition date_idx (columns : list str) : list nat :=
  map fst (List.filter (fun ic => is_date_column (snd ic))
                       (zip (seq 0 (length columns)) columns)).

(** [for idx in date_idx: fields[idx] = _safe_iso(fields[idx])] *)
Fixpoint normalise_dates (idxs : list nat) (fields : list str)
  : outcome (list str) :=
  match idxs with
  | [] => Return fields
  | idx :: idxs' =>
      match fields !! idx with
      | None => Raise IndexError
      | Some f =>
          v ← _safe_iso unicode_decimal int_max_str_digits f;
          normalise_dates idxs' (<[idx := v]> fields)
      end
  end.

(** Pad with empty strings and cut to the number of columns:
    [list(itertools.islice(fields + ['']*len(columns), len(columns)))]. *)
Definition fit_columns (columns : list str) (fields : list (option str))
  : list (option str) :=
  take (length columns) (fields ++ replicate (length columns) (Some [])).

(** The body of the loop of [_process] up to the row it writes. *)
Definition transform_line (sep_regex : Pattern) (columns : list str)
    (idxs : list nat) (line : str) : outcome (list str) :=
  let fields := sep_regex (rstrip_nl line) in
  let fields := fit_columns columns fields in
  fields ← mapM null_if_empty fields;
  normalise_dates idxs fields.

End Transformer.

(** ** The world of a run *)

Record world := {
  files : gmap str str;
    (** the regular text files, by path, with their contents as text mode
        reads them: decoded, line ends translated to the newline character;
        the paths are those [Path.resolve()] returns, and a temporary file
        goes by the name [tempfile] gave it *)
  csv_files : gmap str (list (list str));
    (** the files written through [csv.writer], as the rows written; a run
        does not read them back *)
  web : gmap str str;
    (** what [urlopen] can fetch, by URL *)
  tmp_name : str;
    (** the name [tempfile] picks next *)
  stdin : list str;
    (** the lines still to be typed at [input()] *)
  compiled : list str;
    (** the arguments of the calls to [re.compile] so far *)
  stat_fails : str -> bool;
    (** the paths on which [os.stat] fails with an error that [pathlib]
        does not take for a missing file: a name too long, a directory that
        may not be searched *)
  realpath : str -> outcome str;
    (** [Path(p).resolve()] as a string: the path made absolute, with its
        symbolic links followed; [RuntimeError] on a loop of links *)
}.

Definition set_files (f : gmap str str -> gmap str str) (w : world) : world :=
  {| files := f (files w); csv_files := csv_files w; web := web w;
     tmp_name := tmp_name w; stdin := stdin w; compiled := compiled w;
     stat_fails := stat_fails w; realpath := realpath w |}.

Definition set_csv_files
    (f : gmap str (list (list str)) -> gmap str (list (list str)))
    (w : world) : world :=
  {| files := files w; csv_files := f (csv_files w); web := web w;
     tmp_name := tmp_name w; stdin := stdin w; compiled := compiled w;
     stat_fails := stat_fails w; realpath := realpath w |}.

Definition set_stdin (l : list str) (w : world) : world :=
  {| files := files w; csv_files := csv_files w; web := web w;
     tmp_name := tmp_name w; stdin := l; compiled := compiled w;
     stat_fails := stat_fails w; realpath := realpath w |}.

Definition set_compiled (l : list str) (w : world) : world :=
  {| files := files w; csv_files := csv_files w; web := web w;
     tmp_name := tmp_name w; stdin := stdin w; compiled := l;
     stat_fails := stat_fails w; realpath := realpath w |}.

(** A statement: it ends normally or raises, and leaves a world. *)
Definition M (A : Type) : Type := world -> outcome A * world.

Definition ret {A} (a : A) : M A := fun w => (Return a, w).
Definition raise {A} (e : exn) : M A := fun w => (Raise e, w).
Definition lift {A} (o : outcome A) : M A := fun w => (o, w).
Definition bind {A B} (c : M A) (k : A -> M B) : M B :=
  fun w => match c w with
           | (Return a, w') => k a w'
           | (Raise e, w') => (Raise e, w')
           end.

#[global] Instance M_bind : MBind M := λ A B k c, bind c k.
#[global] Instance M_ret : MRet M := @ret.

(** [try: body / finally: final] *)
Definition try_finally {A} (body : M A) (final : M unit) : M A :=
  fun w => let '(r, w1) := body w in
           match final w1 with
           | (Return _, w2) => (r, w2)
           | (Raise e, w2) => (Raise e, w2)
           end.

(** Text files are read line by line; a line keeps its newline. *)
Fixpoint lines_of (text : str) : list str :=
  match text with
  | [] => []
  | c :: t =>
      if (c =? 0x0A)%N then [c] :: lines_of t
      else match lines_of t with
           | [] => [[c]]
           | l :: ls => (c :: l) :: ls
           end
  end.

(** [Path(p).is_file()]: whether [os.stat], which follows links, finds a
    regular file.  The errors of [os.stat] that mean a missing file (a loop
    of links among them) give [False]; any other [OSError] is raised. *)
Definition names_file (w : world) (p : str) : bool :=
  match realpath w p with
  | Return q => bool_decide (is_Some (files w !! q))
  | Raise _ => false
  end.

Definition is_file (p : str) : M bool :=
  fun w => if stat_fails w p then (Raise OSError, w)
           else (Return (names_file w p), w).

(** [Path(p).resolve()] *)
Definition resolve (p : str) : M str := fun w => (realpath w p, w).

(** [p.open('r')] and [p.stat()] raise [OSError] on a missing file. *)
Definition read_text (p : str) : M str :=
  fun w => match files w !! p with
           | Some t => (Return t, w)
           | None => (Raise OSError, w)
           end.

Definition stat_size (p : str) : M nat :=
  t ← read_text p; ret (length t).

Definition write_text (p : str) (t : str) : M unit :=
  fun w => (Return tt, set_files (insert p t) w).

(** [p.open('w')] followed by [csv.writer]: the file is created empty. *)
Definition open_csv (p : str) : M unit :=
  fun w => (Return tt, set_csv_files (insert p []) (set_files (delete p) w)).

Definition writerow (p : str) (row : list str) : M unit :=
  fun w => (Return tt,
            set_csv_files (insert p (default [] (csv_files w !! p) ++ [row])) w).

(** [pathlib.Path(p).unlink()] *)
Definition unlink (p : str) : M unit :=
  fun w => match files w !! p with
           | Some _ => (Return tt, set_files (delete p) w)
           | None => (Raise OSError, w)
           end.

(** [tempfile.NamedTemporaryFile(delete=False, suffix='.txt')]: a new,
    empty file. *)
Definition NamedTemporaryFile : M str :=
  fun w => match files w !! tmp_name w with
           | Some _ => (Raise OSError, w)
           | None => (Return (tmp_name w), set_files (insert (tmp_name w) []) w)
           end.

Definition urlopen (url : str) : M str :=
  fun w => match web w !! url with
           | Some t => (Return t, w)
           | None => (Raise OSError, w)
           end.

(** ** [_ask] *)

Fixpoint ask_loop (default : option str) (input : list str)
  : outcome str * list str :=
  match input with
  | [] => (Raise EOFError, [])
  | l :: input' =>
      match strip l with
      | [] => match default with
              | Some d => (Return d, input')
              | None => ask_loop default input'
              end
      | val => (Return val, input')
      end
  end.

Definition _ask (default : option str) : M str :=
  fun w => let '(r, rest) := ask_loop default (stdin w) in (r, set_stdin rest w).

(** ** [_get_source] *)

Record source := { path : str; cleanup : M unit }.

Definition _get_source (path_or_url : str) : M source :=
  b ← is_file path_or_url;
  if b : bool then
    p ← resolve path_or_url;
    ret {| path := p; cleanup := ret tt |}
  else if startswith_any path_or_url [u "http://"; u "https://"] then
    tmp ← NamedTemporaryFile;
    resp ← urlopen path_or_url;
    _ ← write_text tmp resp;
    ret {| path := tmp; cleanup := unlink tmp |}
  else raise SystemExit.

Section Script.

Variable unicode_decimal : char -> option N.
Variable int_max_str_digits : nat.
Variable unicode_lower : char -> str.
(** [re.compile]: [None] when the expression does not compile. *)
Variable re_compile : str -> option Pattern.
(** whether [import tqdm] succeeds *)
Variable has_tqdm : bool.
(** [_select_file] (lines 50-69): it inspects the files and reads the
    console, and yields what it returns and the console input left. *)
Variable _select_file : world -> outcome str * list str.
(** [p.with_name(f'{p.stem}_pg.csv')] *)
Variable pg_csv_name : str -> str.

Definition compile (expr : str) : M Pattern :=
  fun w => (match re_compile expr with
            | Some p => Return p
            | None => Raise re_error
            end,
            set_compiled (compiled w ++ [expr]) w).

(** [with tqdm(total=...) as bar]: the stand-in defined when [tqdm] is
    missing returns a [range], which is not a context manager. *)
Definition tqdm_enter : M unit :=
  if has_tqdm then ret tt else raise TypeError.

(** [for line in fin: ...; w.writerow(fields)] *)
Fixpoint process_lines (dst : str) (sep_regex : Pattern)
    (columns : list str) (idxs : list nat) (lines : list str) : M unit :=
  match lines with
  | [] => ret tt
  | line :: lines' =>
      fields ← lift (transform_line unicode_decimal int_max_str_digits
                       sep_regex columns idxs line);
      _ ← writerow dst fields;
      process_lines dst sep_regex columns idxs lines'
  end.

Definition _process (src dst : str) (sep_regex : Pattern)
    (columns : list str) : M unit :=
  total ← stat_size src;
  let idxs := date_idx unicode_lower columns in
  text ← read_text src;
  _ ← open_csv dst;
  _ ← writerow dst columns;
  _ ← tqdm_enter;
  process_lines dst sep_regex columns idxs (lines_of text).

Definition select_file : M str :=
  fun w => let '(r, rest) := _select_file w in (r, set_stdin rest w).

Definition human_suggest_table : list (str * str) :=
  [(u "|", u "\|"); (u ",", u ","); (u ";", u ";"); ([0x09%N], u "\t")].

(** [[c.strip() for c in cols_raw.split(',') if c.strip()]] *)
Definition parse_columns (cols_raw : str) : list str :=
  map strip (List.filter (fun c => negb (bool_decide (strip c = [])))
                         (split_char 0x2C%N cols_raw)).

Definition main (argv : list str) : M unit :=
  if (2 <? length argv)%nat then raise SystemExit
  else
    path_or_url ← (if (length argv =? 2)%nat
                    then ret (nth 1 argv [])
                    else select_file);
    source ← _get_source path_or_url;
    text ← read_text (path source);
    let first_line := hd [] (lines_of text) in
    suggested ← lift (_guess_separator first_line);
    human_suggest ← lift (dict_get human_suggest_table suggested);
    sep_raw ← _ask (Some human_suggest);
    sep_regex ← compile (u "\s*" ++ sep_raw ++ u "\s*");
    cols_raw ← _ask None;
    let columns := parse_columns cols_raw in
    match columns with
    | [] => raise SystemExit
    | _ :: _ =>
        let dst := pg_csv_name (path source) in
        try_finally (_process (path source) dst sep_regex columns)
                    (cleanup source)
    end.

End Script.

(** * Vocabulary of the properties *)

(** An interpreter that knows the ASCII digits only and has no digit limit,
    to run the definitions on ASCII inputs. *)
Definition ascii_only : char -> option N := fun _ => None.

(** A pattern for the examples: what [re.compile(r'\s*' + c + r'\s*').split]
    does for a separator character [c] that is not white space.  Every
    occurrence of [c] is a match, taken with the blanks around it. *)
Fixpoint trim_after_sep (ps : list str) : list (option str) :=
  match ps with
  | [] => []
  | [p] => [Some (lstrip_by is_space p)]
  | p :: ps' => Some (strip p) :: trim_after_sep ps'
  end.

Definition ws_char_split (c : char) : Pattern :=
  fun s => match split_char c s with
           | [] => []
           | [p] => [Some p]
           | p :: ps => Some (rstrip_by is_space p) :: trim_after_sep ps
           end.

(** A pattern with a group that does not take part in the match, as
    [re.compile(r'\s*(;)|,\s*').split] on a line with commas only. *)
Definition group_split : Pattern :=
  fun s => match split_char 0x2C%N s with
           | [] => []
           | p :: ps => Some p :: flat_map (fun q => [None; Some q]) ps
           end.

(** A compiler for the examples: it knows the expressions built from the
    four suggested separators and rejects every other expression. *)
Definition toy_compile (expr : str) : option Pattern :=
  if decide (expr = u "\s*\|\s*") then Some (ws_char_split 0x7C%N)
  else if decide (expr = u "\s*,\s*") then Some (ws_char_split 0x2C%N)
  else if decide (expr = u "\s*;\s*") then Some (ws_char_split 0x3B%N)
  else None.

Definition id_lower : char -> str := fun c => [c].

Definition demo_text : str :=
  u "1|Alice|01.01.1990" ++ [0x0A%N] ++ u "2|Bob|" ++ [0x0A%N].
Definition demo_src : str := u "/data/people.txt".
Definition demo_dst : str := u "/data/people_pg.csv".
Definition demo_url : str := u "http://host/people.txt".
Definition demo_tmp : str := u "/tmp/tmpk3v9.txt".

(** A world with the source on disk. *)
Definition disk_world (input : list str) : world :=
  {| files := {[ demo_src := demo_text ]}; csv_files := ∅; web := ∅;
     tmp_name := demo_tmp; stdin := input; compiled := [];
     stat_fails := fun _ => false; realpath := Return |}.

(** A world with the source behind a URL. *)
Definition web_world (input : list str) : world :=
  {| files := ∅; csv_files := ∅; web := {[ demo_url := demo_text ]};
     tmp_name := demo_tmp; stdin := input; compiled := [];
     stat_fails := fun _ => false; realpath := Return |}.

(** A chooser for the examples: nothing is typed, [input()] meets the end
    of the console input. *)
Definition no_select_file : world -> outcome str * list str :=
  fun w => (Raise EOFError, stdin w).

(** [p.with_name(f'{p.stem}_pg.csv')] on a POSIX path, for the examples. *)
Fixpoint span_until (c : char) (s : str) : str * str :=
  match s with
  | [] => ([], [])
  | x :: s' =>
      if (x =? c)%N then ([], s)
      else let '(a, b) := span_until c s' in (x :: a, b)
  end.

Definition posix_pg_csv_name (p : str) : str :=
  let '(rname, rdir) := span_until 0x2F%N (rev p) in
  let '(rext, rrest) := span_until 0x2E%N rname in
  let stem := match rext, rrest with
              | _ :: _, _ :: c :: rstem => rev (c :: rstem)
              | _, _ => rev rname
              end in
  rev rdir ++ stem ++ u "_pg.csv".

(** The world a run leaves when the downloaded copy is not removed. *)
Definition leaked_world (input : list str) (exprs : list str) : world :=
  {| files := {[ demo_tmp := demo_text ]}; csv_files := ∅;
     web := {[ demo_url := demo_text ]};
     tmp_name := demo_tmp; stdin := input; compiled := exprs;
     stat_fails := fun _ => false; realpath := Return |}.

(** Two worlds agree on what was written and what was compiled. *)
Definition quiet (w w' : world) : Prop :=
  csv_files w' = csv_files w /\ compiled w' = compiled w.

Definition demo_columns : list str := [u "id"; u "name"; u "birthday"].

Definition DOT : char := 0x2E%N.

(** The value of a string of ASCII digits. *)
Definition digits_value (s : str) : option Z :=
  fold_left (fun acc c => a ← acc; d ← digit_val c; Some (10 * a + d)) s (Some 0).

(** Reading a string of the form YYYY-MM-DD back. *)
Definition parse_iso (s : str) : option date :=
  match s with
  | [y1; y2; y3; y4; h1; m1; m2; h2; d1; d2] =>
      if ((h1 =? 0x2D) && (h2 =? 0x2D))%N then
        y ← digits_value [y1; y2; y3; y4];
        m ← digits_value [m1; m2];
        d ← digits_value [d1; d2];
        Some {| year := y; month := m; day := d |}
      else None
  | _ => None
  end.

Definition fmt_d_checked (w : nat) (n : nat) : bool :=
  let s := fmt_d w (Z.of_nat n) in
  (length s =? w)%nat && bool_decide (digits_value s = Some (Z.of_nat n)).

(** The value of [f.strip() if f.strip() else NULL] on a string. *)
Definition null_or_trim (s : str) : str :=
  match strip s with [] => NULL | t => t end.

(** A part made of ASCII characters, and short enough for any digit limit. *)
Definition ascii_short (s : str) : bool :=
  forallb (fun c => c <? 127)%N s && (length s <=? 640)%nat.

Section Vocabulary.

Variable unicode_decimal : char -> option N.
Variable int_max_str_digits : nat.
Variable unicode_lower : char -> str.

Local Abbreviation py_int := (py_int unicode_decimal int_max_str_digits).
Local Abbreviation transform_line :=
  (transform_line unicode_decimal int_max_str_digits).
Local Abbreviation date_idx := (date_idx unicode_lower).

(** What [_safe_iso] returns, as a function. *)
Definition safe_iso_value (raw : str) : str :=
  match split_char DOT (strip raw) with
  | [d; m; y] =>
      if (length y =? 4)%nat then
        match py_int y, py_int m, py_int d with
        | Return yy, Return mm, Return dd =>
            if valid_date yy mm dd
            then isoformat {| year := yy; month := mm; day := dd |}
            else NULL
        | _, _, _ => NULL
        end
      else NULL
  | _ => NULL
  end.

(** [s] reads as day, month and year of a calendar date: three parts
    between dots, a year of four characters, each part an integer for
    [int], and the three a date that [datetime.date] accepts. *)
Definition reads_as_date (s : str) (dt : date) : Prop :=
  exists d m y,
    s = d ++ DOT :: m ++ DOT :: y /\ (DOT ∉ d) /\ (DOT ∉ m) /\ (DOT ∉ y) /\
    length y = 4%nat /\
    py_int y = Return (year dt) /\
    py_int m = Return (month dt) /\
    py_int d = Return (day dt) /\
    valid_date (year dt) (month dt) (day dt) = true.

(** The field of the record at a column: trimmed or NULL, and normalised
    as a date in a date column. *)
Definition emitted_field (columns : list str) (i : nat) (s : str) : str :=
  if decide (i ∈ date_idx columns)
  then safe_iso_value (null_or_trim s)
  else null_or_trim s.

(** The records of the lines up to the first line that raises, and how
    the loop ends. *)
Fixpoint rows_of (sep_regex : Pattern) (columns : list str)
    (idxs : list nat) (lines : list str) : list (list str) * outcome unit :=
  match lines with
  | [] => ([], Return tt)
  | line :: lines' =>
      match transform_line sep_regex columns idxs line with
      | Raise e => ([], Raise e)
      | Return rec =>
          let '(rows, r) := rows_of sep_regex columns idxs lines' in
          (rec :: rows, r)
      end
  end.

End Vocabulary.

(** The claim C3 as it is worded, with the parts taken from the string as
    given. *)
Definition safe_iso_untrimmed_claim (raw : str) : Prop :=
  (forall dt, reads_as_date ascii_only 0 raw dt ->
              _safe_iso ascii_only 0 raw = Return (isoformat dt))
  /\ ((~ exists dt, reads_as_date ascii_only 0 raw dt) ->
      _safe_iso ascii_only 0 raw = Return NULL).


(** * The file chooser *)

(** [_select_file] (lines 50-69), for the runs in which it is the chooser
    of [main]. *)

(** [PurePath.suffix] of a name: from its last dot on, unless that dot is
    the first or the last character. *)
Definition path_suffix (name : str) : str :=
  match span_until 0x2E%N (rev name) with
  | (c :: rext, _ :: _ :: _) => 0x2E%N :: rev (c :: rext)
  | _ => []
  end.

(** A string that [Path] reads as [Path(dir) / name], for a [name] without
    slash. *)
Definition path_child (dir name : str) : str :=
  match rev dir with
  | c :: _ => if (c =? 0x2F)%N then dir ++ name else dir ++ 0x2F%N :: name
  | [] => dir ++ 0x2F%N :: name
  end.

(** The order of [str]: by code points, a proper prefix first. *)
Fixpoint str_leb (a b : str) : bool :=
  match a, b with
  | [], _ => true
  | _ :: _, [] => false
  | x :: a', y :: b' => ((x <? y) || ((x =? y) && str_leb a' b'))%N
  end.

Fixpoint insert_sorted (x : str) (l : list str) : list str :=
  match l with
  | [] => [x]
  | y :: l' => if str_leb x y then x :: l else y :: insert_sorted x l'
  end.

(** [sorted(names)]; the paths of the entries of one directory come in the
    order of their names. *)
Definition py_sorted (l : list str) : list str := foldr insert_sorted [] l.

(** [l[i]], with Python's negative indices. *)
Definition py_index {A} (l : list A) (i : Z) : outcome A :=
  let n := Z.of_nat (length l) in
  let j := (if i <? 0 then i + n else i)%Z in
  if ((j <? 0) || (n <=? j))%Z then Raise IndexError
  else match l !! Z.to_nat j with
       | Some x => Return x
       | None => Raise IndexError
       end.

Section SelectFile.

Variable unicode_decimal : char -> option N.
Variable int_max_str_digits : nat.
Variable unicode_lower : char -> str.
(** [Path(p).is_dir()] and [Path(p).iterdir()], asked once [is_file()] has
    returned [False]: [None] for what is not a directory; for a directory
    the names of its entries as [os.listdir] gives them, or the [OSError]
    it raises on a directory that may not be read. *)
Variable listdir : str -> option (outcome (list str)).

(** [sorted(f for f in path.iterdir() if f.suffix.lower() == '.txt')], as
    the names of the entries. *)
Definition txt_names_of (names : list str) : list str :=
  py_sorted
    (List.filter
       (fun name => bool_decide (lower unicode_lower (path_suffix name)
                                 = u ".txt"))
       names).

(** The loop of [_select_file], on the lines typed.  It reads the world
    and changes nothing but the console input. *)
Fixpoint select_loop (w : world) (input : list str)
  : outcome str * list str :=
  match input with
  | [] => (Raise EOFError, [])
  | l :: input' =>
      match strip l with
      | [] => select_loop w input'
      | p =>
          if stat_fails w p then (Raise OSError, input')
          else if names_file w p then (realpath w p, input')
          else match listdir p with
               | Some (Raise e) => (Raise e, input')
               | Some (Return names) =>
                   match txt_names_of names with
                   | [] => select_loop w input'
                   | txt_files =>
                       let '(a, input'') := ask_loop (Some (u "1")) input' in
                       (ans ← a;
                        idx ← py_int unicode_decimal int_max_str_digits ans;
                        f ← py_index txt_files (idx - 1);
                        realpath w (path_child p f),
                        input'')
                   end
               | None =>
                   if startswith_any p [u "http://"; u "https://"]
                   then (Return p, input')
                   else select_loop w input'
               end
      end
  end.

Definition _select_file (w : world) : outcome str * list str :=
  select_loop w (stdin w).

End SelectFile.

(** * Vocabulary of the further properties *)

Definition COMMA : char := 0x2C%N.

(** A column name as [main] keeps it: not empty, trimmed, without comma. *)
Definition column_name (c : str) : Prop :=
  c <> [] /\ strip c = c /\ COMMA ∉ c.

Definition is_digit_char (c : char) : bool := ((0x30 <=? c) && (c <=? 0x39))%N.

(** The decimal text of [n] at a given width is made of digits and [int]
    reads it back as [n]. *)
Definition decimal_checked (w : nat) (n : nat) : bool :=
  let s := fmt_d w (Z.of_nat n) in
  forallb is_digit_char s && (length s <=? 4)%nat && negb (length s =? 0)%nat
  && match py_int ascii_only 0 s with
     | Return v => (v =? Z.of_nat n)%Z
     | Raise _ => false
     end.

(** What the separator prompt offers for a source text: the escaped form of
    the separator guessed from the first line. *)
Definition suggested_separator (text : str) : str :=
  match _guess_separator (hd [] (lines_of text)) with
  | Return sep => match dict_get human_suggest_table sep with
                  | Return hs => hs
                  | Raise _ => []
                  end
  | Raise _ => []
  end.

(** The answer [_ask] gives for one typed line. *)
Definition answer (default line : str) : str :=
  match strip line with [] => default | v => v end.

Section SelectVocabulary.

Variable unicode_lower : char -> str.
Variable listdir : str -> option (outcome (list str)).

(** A line the chooser passes over: blank, or one that [os.stat] can look
    at and that names neither a file nor a URL nor a directory that holds
    a [.txt] entry. *)
Definition passed_over (w : world) (l : str) : bool :=
  match strip l with
  | [] => true
  | p =>
      negb (stat_fails w p) && negb (names_file w p)
      && match listdir p with
         | Some (Return names) =>
             bool_decide (txt_names_of unicode_lower names = [])
         | Some (Raise _) => false
         | None => negb (startswith_any p [u "http://"; u "https://"])
         end
  end.

(** The line names a URL: no file, no directory, and the prefix of one. *)
Definition names_url (w : world) (l : str) : Prop :=
  stat_fails w (strip l) = false /\ names_file w (strip l) = false
  /\ listdir (strip l) = None
  /\ startswith_any (strip l) [u "http://"; u "https://"] = true.

End SelectVocabulary.

(** Lower case for the ASCII letters, for the examples. *)
Definition ascii_lower : char -> str :=
  fun c => if ((0x41 <=? c) && (c <=? 0x5A))%N then [(c + 32)%N] else [c].

(** A directory for the examples. *)
Definition demo_dir : str := u "/data".
Definition demo_names : list str :=
  [u "people.txt"; u "readme.md"; u "notes.TXT"; u ".txt"; u "address.txt"].
Definition demo_listdir (p : str) : option (outcome (list str)) :=
  if decide (p = demo_dir) then Some (Return demo_names) else None.

Definition demo_prog : str := u "txt2pgcsv.py".
Definition demo_bar_expr : str := u "\s*\|\s*".

(** The world after the example source is converted. *)
Definition written_world (exprs : list str) : world :=
  {| files := {[ demo_src := demo_text ]};
     csv_files := {[ demo_dst := [demo_columns;
                                  [u "1"; u "Alice"; u "1990-01-01"];
                                  [u "2"; u "Bob"; NULL]] ]};
     web := ∅; tmp_name := demo_tmp; stdin := []; compiled := exprs;
     stat_fails := fun _ => false; realpath := Return |}.

(** What [main] converts: the argument of the command line, or what the
    chooser returns; with it, the console input left for the prompts. *)
Definition chosen (chooser : world -> outcome str * list str)
    (argv : list str) (w : world) : outcome str * list str :=
  if (length argv =? 2)%nat then (Return (nth 1 argv []), stdin w)
  else chooser w.

(** The text [main] finds under a path or URL: that of the file it names,
    or else what the URL serves. *)
Definition source_text (w : world) (path_or_url : str) : option str :=
  if names_file w path_or_url then
    match realpath w path_or_url with
    | Return q => files w !! q
    | Raise _ => None
    end
  else web w !! path_or_url.

(** Two worlds with the same files, links and network. *)
Definition same_disk (w w' : world) : Prop :=
  files w' = files w /\ web w' = web w /\ tmp_name w' = tmp_name w
  /\ stat_fails w' = stat_fails w /\ realpath w' = realpath w.

(** The example source with commas. *)
Definition comma_text : str :=
  u "1,Alice,01.01.1990" ++ [0x0A%N] ++ u "2,Bob," ++ [0x0A%N].

Definition comma_world (input : list str) : world :=
  {| files := {[ demo_src := comma_text ]}; csv_files := ∅; web := ∅;
     tmp_name := demo_tmp; stdin := input; compiled := [];
     stat_fails := fun _ => false; realpath := Return |}.

(** What [re.compile(r'\s*(x)?\s*').split] does, the expression [main]
    builds when the caller types [(x)?].  At every place the expression
    matches the blanks there, an [x] when one follows, and the blanks after
    it; the group is [None] when no [x] is met.  An empty match is not
    taken where the match before it was empty and ended. *)
Definition match_x (s : str) : option str * str :=
  match lstrip_by is_space s with
  | c :: s' =>
      if (c =? 0x78)%N then (Some [c], lstrip_by is_space s')
      else (None, c :: s')
  | [] => (None, [])
  end.

Fixpoint split_x (fuel : nat) (piece s : str) (must_advance : bool)
  : list (option str) :=
  match fuel with
  | O => []
  | S fuel' =>
      let '(g, rest) := match_x s in
      if (length rest <? length s)%nat then
        Some (rev piece) :: g :: split_x fuel' [] rest false
      else if must_advance then
        match s with
        | [] => [Some (rev piece)]
        | c :: s' => split_x fuel' (c :: piece) s' false
        end
      else Some (rev piece) :: None :: split_x fuel' [] s true
  end.

Definition optional_x_split : Pattern :=
  fun s => split_x (2 * length s + 2) [] s false.

(** The last part of the claim C10 as it is worded: a blank line gives one
    NULL sentinel per column, whatever the separator. *)
Definition blank_line_claim (sep_regex : Pattern) (columns : list str)
    (line : str) : Prop :=
  strip line = [] ->
  transform_line ascii_only 0 sep_regex columns (date_idx id_lower columns)
    line
  = Return (replicate (length columns) NULL).

(** * Properties *)

Example safe_iso_ex1 :
  _safe_iso ascii_only 0 (u "05.03.2020") = Return (u "2020-03-05").
Proof. vm_compute. reflexivity. Qed.

Example safe_iso_ex2 :
  _safe_iso ascii_only 0 (u " 5.3.2020 ") = Return (u "2020-03-05").
Proof. vm_compute. reflexivity. Qed.

Example safe_iso_ex3 :
  _safe_iso ascii_only 0 (u "31.02.2020") = Return NULL.
Proof. vm_compute. reflexivity. Qed.

Example transform_ex1 :
  transform_line ascii_only 0 (ws_char_split 0x7C%N)
    [u "id"; u "name"; u "birthday"]
    (date_idx id_lower [u "id"; u "name"; u "birthday"])
    (u "1|Alice|01.01.1990" ++ [0x0A%N])
  = Return [u "1"; u "Alice"; u "1990-01-01"].
Proof. vm_compute. reflexivity. Qed.

Example transform_ex2 :
  transform_line ascii_only 0 (ws_char_split 0x7C%N)
    [u "id"; u "name"; u "birthday"]
    (date_idx id_lower [u "id"; u "name"; u "birthday"])
    (u "2 | Bob|")
  = Return [u "2"; u "Bob"; NULL].
Proof. vm_compute. reflexivity. Qed.

Example transform_ex3 :
  transform_line ascii_only 0 group_split
    [u "id"; u "name"; u "birthday"]
    (date_idx id_lower [u "id"; u "name"; u "birthday"])
    (u "2,Bob")
  = Raise AttributeError.
Proof. vm_compute. reflexivity. Qed.

Example guess_ex1 : _guess_separator (u "a|b|c") = Return (u "|").
Proof. vm_compute. reflexivity. Qed.

Example guess_ex2 : _guess_separator (u "a;b,c") = Return (u ",").
Proof. vm_compute. reflexivity. Qed.


(** ** Strings *)

Lemma split_char_nonempty sep s : split_char sep s <> [].
Proof.
  destruct s as [|c s]; simpl; [discriminate|].
  destruct (c =? sep)%N; [discriminate|].
  destruct (split_char sep s); discriminate.
Qed.

Lemma join_split_char sep s : join_char sep (split_char sep s) = s.
Proof.
  induction s as [|c s IH]; simpl; [reflexivity|].
  destruct (N.eqb_spec c sep) as [->|Hne].
  - pose proof (split_char_nonempty sep s) as Hn.
    destruct (split_char sep s) as [|p ps]; [congruence|].
    change (join_char sep ([] :: p :: ps)) with (sep :: join_char sep (p :: ps)).
    now rewrite IH.
  - pose proof (split_char_nonempty sep s) as Hn.
    destruct (split_char sep s) as [|p ps]; [congruence|].
    destruct ps as [|q ps]; simpl in *; now rewrite <- IH.
Qed.

Lemma split_char_no_sep sep s : Forall (fun p => sep ∉ p) (split_char sep s).
Proof.
  induction s as [|c s IH]; simpl.
  - repeat constructor. apply not_elem_of_nil.
  - destruct (N.eqb_spec c sep) as [->|Hne].
    + constructor; [apply not_elem_of_nil | exact IH].
    + destruct (split_char sep s) as [|p ps].
      * repeat constructor. rewrite list_elem_of_singleton. congruence.
      * inversion IH; subst. constructor; [|assumption].
        rewrite elem_of_cons. intros [?|?]; [congruence | contradiction].
Qed.

Lemma split_char_app_sep sep p r :
  sep ∉ p -> split_char sep (p ++ sep :: r) = p :: split_char sep r.
Proof.
  induction p as [|c p IH]; simpl; intros Hp.
  - now rewrite N.eqb_refl.
  - rewrite not_elem_of_cons in Hp. destruct Hp as [Hc Hp].
    destruct (N.eqb_spec c sep) as [->|_]; [congruence|].
    now rewrite IH.
Qed.

Lemma split_char_none sep p : sep ∉ p -> split_char sep p = [p].
Proof.
  induction p as [|c p IH]; simpl; intros Hp; [reflexivity|].
  rewrite not_elem_of_cons in Hp. destruct Hp as [Hc Hp].
  destruct (N.eqb_spec c sep) as [->|_]; [congruence|].
  now rewrite IH.
Qed.

Lemma split_char_join sep ps :
  ps <> [] -> Forall (fun p => sep ∉ p) ps ->
  split_char sep (join_char sep ps) = ps.
Proof.
  induction ps as [|p ps IH]; intros Hne Hall; [congruence|].
  inversion Hall as [|? ? Hp Hps]; subst.
  destruct ps as [|q ps].
  - simpl. now apply split_char_none.
  - change (join_char sep (p :: q :: ps))
      with (p ++ sep :: join_char sep (q :: ps)).
    rewrite split_char_app_sep by assumption.
    now rewrite IH.
Qed.

(** Three components: the string is [d.m.y] with no further dot. *)
Lemma split_char_three sep s d m y :
  split_char sep s = [d; m; y] <->
  s = d ++ sep :: m ++ sep :: y /\ (sep ∉ d) /\ (sep ∉ m) /\ (sep ∉ y).
Proof.
  split.
  - intros H. pose proof (join_split_char sep s) as Hj.
    pose proof (split_char_no_sep sep s) as Hf.
    rewrite H in Hj. rewrite H in Hf. simpl in Hj.
    apply Forall_cons in Hf as [Hd Hf]. apply Forall_cons in Hf as [Hm Hf].
    apply Forall_cons in Hf as [Hy _]. auto.
  - intros (-> & Hd & Hm & Hy).
    change (d ++ sep :: m ++ sep :: y) with (join_char sep [d; m; y]).
    apply split_char_join; [discriminate|]. now repeat constructor.
Qed.

Lemma count_from_single c s :
  count_from [c] s 0 = length (List.filter (N.eqb c) s).
Proof.
  induction s as [|x s IH]; simpl; [reflexivity|].
  rewrite andb_true_r. destruct (c =? x)%N; simpl; now rewrite IH.
Qed.

Lemma str_count_single s c :
  str_count s [c] = length (List.filter (N.eqb c) s).
Proof. apply count_from_single. Qed.

Lemma str_count_absent s c : c ∉ s -> str_count s [c] = 0%nat.
Proof.
  rewrite str_count_single. induction s as [|x s IH]; simpl; [reflexivity|].
  rewrite not_elem_of_cons. intros [Hx Hs].
  destruct (N.eqb_spec c x); [congruence | now apply IH].
Qed.

(** ** Blank strings *)

Lemma lstrip_by_suffix p s : exists t, s = t ++ lstrip_by p s.
Proof.
  induction s as [|c s [t IH]]; simpl; [now exists []|].
  destruct (p c); [|now exists []].
  exists (c :: t). simpl. now rewrite <- IH.
Qed.

Lemma rstrip_by_prefix p s : exists t, s = rstrip_by p s ++ t.
Proof.
  unfold rstrip_by. destruct (lstrip_by_suffix p (rev s)) as [t Ht].
  exists (rev t). rewrite <- rev_app_distr, <- Ht. now rewrite rev_involutive.
Qed.

Lemma lstrip_by_all p s : Forall (fun c => p c = true) s -> lstrip_by p s = [].
Proof. induction 1 as [|c s Hc _ IH]; simpl; [reflexivity | now rewrite Hc]. Qed.

Lemma lstrip_by_nil p s : lstrip_by p s = [] -> Forall (fun c => p c = true) s.
Proof.
  induction s as [|c s IH]; simpl; [constructor|].
  destruct (p c) eqn:Hc; [|discriminate]. auto.
Qed.

Lemma lstrip_by_head p s c r : lstrip_by p s = c :: r -> p c = false.
Proof.
  induction s as [|x s IH]; simpl; [discriminate|].
  destruct (p x) eqn:Hx; [assumption|]. intros H. injection H as -> _. assumption.
Qed.

Lemma strip_blank s : Forall (fun c => is_space c = true) s -> strip s = [].
Proof. intros H. unfold strip. now rewrite (lstrip_by_all _ _ H). Qed.

Lemma strip_nil s : strip s = [] -> Forall (fun c => is_space c = true) s.
Proof.
  unfold strip, rstrip_by. intros H.
  apply (f_equal (@rev N)) in H. rewrite rev_involutive in H. simpl in H.
  apply lstrip_by_nil in H. apply Forall_rev in H. rewrite rev_involutive in H.
  destruct (lstrip_by is_space s) as [|c r] eqn:Hl; [now apply lstrip_by_nil|].
  apply lstrip_by_head in Hl. apply Forall_cons in H as [Hc _]. congruence.
Qed.

(** A slice of a blank line is blank. *)
Lemma slice_of_blank line a p b :
  strip line = [] -> rstrip_nl line = a ++ p ++ b -> strip p = [].
Proof.
  intros Hb Hs. apply strip_blank. apply strip_nil in Hb.
  destruct (rstrip_by_prefix (N.eqb 10) line) as [t Ht].
  fold (rstrip_nl line) in Ht. rewrite Hs in Ht. rewrite Ht in Hb.
  rewrite !Forall_app in Hb. tauto.
Qed.

(** ** The separator detector *)

Lemma separator_counts_eq line :
  separator_counts line
  = map (fun sep => (sep, str_count line sep)) COMMON_SEPARATORS.
Proof. reflexivity. Qed.

Lemma max_from_spec {A} (key : A -> nat) (items : list A) (best : A) :
  exists i : nat,
    (best :: items) !! i = Some (max_from key best items) /\
    forall (j : nat) x, (best :: items) !! j = Some x ->
      (key x <= key (max_from key best items))%nat /\
      ((j < i)%nat -> (key x < key (max_from key best items))%nat).
Proof.
  revert best. induction items as [|x items IH]; intros best.
  - exists 0%nat. split; [reflexivity|].
    intros [|j] y Hy; simpl in Hy; [|discriminate].
    injection Hy as <-. simpl. lia.
  - simpl max_from.
    destruct (Nat.ltb_spec (key best) (key x)) as [Hlt|Hge].
    + destruct (IH x) as (i & Hi & Hmax).
      exists (S i). split; [exact Hi|].
      intros [|j] y Hy; simpl in Hy.
      * injection Hy as <-. destruct (Hmax 0%nat x eq_refl) as [Hle _]. lia.
      * destruct (Hmax j y Hy) as [Hle Hl]. split; [exact Hle|]. intros; apply Hl; lia.
    + destruct (IH best) as (i & Hi & Hmax).
      destruct i as [|i].
      * exists 0%nat. split; [exact Hi|].
        simpl in Hi. injection Hi as Hi.
        intros [|[|j]] y Hy; simpl in Hy.
        -- injection Hy as <-. rewrite <- Hi. lia.
        -- injection Hy as <-. rewrite <- Hi. lia.
        -- destruct (Hmax (S j) y Hy) as [Hle _]. lia.
      * exists (S (S i)). split; [exact Hi|].
        intros [|[|j]] y Hy; simpl in Hy.
        -- injection Hy as <-. destruct (Hmax 0%nat best eq_refl) as [Hle Hl].
           split; [exact Hle|]. intros _. apply Hl. lia.
        -- injection Hy as <-. destruct (Hmax 0%nat best eq_refl) as [Hle Hl].
           assert (key best < key (max_from key best items))%nat by (apply Hl; lia).
           lia.
        -- destruct (Hmax (S j) y Hy) as [Hle Hl]. split; [exact Hle|].
           intros; apply Hl; lia.
Qed.

(** The detector returns the candidate of greatest count that comes first
    in [COMMON_SEPARATORS]. *)
Lemma guess_separator_spec line :
  exists (i : nat) sep,
    _guess_separator line = Return sep /\
    COMMON_SEPARATORS !! i = Some sep /\
    forall (j : nat) c, COMMON_SEPARATORS !! j = Some c ->
      (str_count line c <= str_count line sep)%nat /\
      ((j < i)%nat -> (str_count line c < str_count line sep)%nat).
Proof.
  unfold _guess_separator. rewrite separator_counts_eq.
  set (f := fun sep : str => (sep, str_count line sep)).
  change (map f COMMON_SEPARATORS)
    with (f (u "|") :: map f [u ","; u ";"; [0x09%N]]).
  simpl py_max.
  destruct (max_from_spec snd (map f [u ","; u ";"; [0x09%N]]) (f (u "|")))
    as (i & Hi & Hmax).
  set (best := max_from snd (f (u "|")) (map f [u ","; u ";"; [0x09%N]])) in *.
  change (f (u "|") :: map f [u ","; u ";"; [0x09%N]])
    with (map f COMMON_SEPARATORS) in Hi, Hmax.
  exists i, (fst best). split; [reflexivity|].
  rewrite list_lookup_fmap in Hi.
  destruct (COMMON_SEPARATORS !! i) as [s|] eqn:Hs; [|discriminate].
  simpl in Hi. injection Hi as Hi. rewrite <- Hi. simpl. split; [reflexivity|].
  intros j c Hc.
  specialize (Hmax j (f c)). rewrite list_lookup_fmap, Hc in Hmax.
  specialize (Hmax eq_refl). rewrite <- Hi in Hmax. exact Hmax.
Qed.

Lemma COMMON_SEPARATORS_single (j : nat) c :
  COMMON_SEPARATORS !! j = Some c -> exists ch, c = [ch].
Proof.
  destruct j as [|[|[|[|j]]]]; simpl; intros H; inversion H; eauto.
Qed.

(** C6. When one candidate of the fixed set (vertical bar, comma, semicolon,
    tab) occurs strictly more often in the sample line than every other
    candidate, the detector returns that candidate. *)
Theorem guess_separator_majority (line sep : str) :
  sep ∈ COMMON_SEPARATORS ->
  (forall c, c ∈ COMMON_SEPARATORS -> c <> sep ->
             (str_count line c < str_count line sep)%nat) ->
  _guess_separator line = Return sep.
Proof.
  intros Hin Hmaj.
  destruct (guess_separator_spec line) as (i & best & Hg & Hi & Hmax).
  rewrite Hg. f_equal.
  destruct (decide (best = sep)) as [|Hne]; [assumption|exfalso].
  apply list_elem_of_lookup in Hin as [k Hk].
  destruct (Hmax k sep Hk) as [Hle _].
  assert (str_count line best < str_count line sep)%nat.
  { apply Hmaj; [|assumption]. apply list_elem_of_lookup. eauto. }
  lia.
Qed.

(** On ["a|b|c"] the detector returns the vertical bar. *)
Lemma guess_separator_majority_witness :
  _guess_separator (u "a|b|c") = Return (u "|").
Proof.
  apply (guess_separator_majority (u "a|b|c") (u "|")).
  - vm_compute. apply list_elem_of_here.
  - intros c Hc Hne. unfold COMMON_SEPARATORS in Hc.
    rewrite !elem_of_cons in Hc.
    destruct Hc as [->|[->|[->|[->|Hc]]]];
      [congruence|vm_compute; lia..|].
    apply elem_of_nil in Hc. destruct Hc.
Defined.

(** C7. On a line that holds none of the candidates (the empty line too)
    the detector returns the first candidate, the vertical bar, and does
    not fail; in general it returns the candidate of greatest count that
    comes first in declaration order. *)
Theorem guess_separator_default_and_ties (line : str) :
  ((forall ch, ch ∈ line -> [ch] ∉ COMMON_SEPARATORS) ->
   _guess_separator line = Return (u "|"))
  /\ _guess_separator [] = Return (u "|")
  /\ exists (i : nat) sep,
       _guess_separator line = Return sep /\
       COMMON_SEPARATORS !! i = Some sep /\
       forall (j : nat) c, COMMON_SEPARATORS !! j = Some c ->
         (str_count line c <= str_count line sep)%nat /\
         ((j < i)%nat -> (str_count line c < str_count line sep)%nat).
Proof.
  split; [|split; [reflexivity | apply guess_separator_spec]].
  intros Hnone.
  assert (Hzero : forall (j : nat) c,
             COMMON_SEPARATORS !! j = Some c -> str_count line c = 0%nat).
  { intros j c Hc. destruct (COMMON_SEPARATORS_single j c Hc) as [ch ->].
    apply str_count_absent. intros Hin. apply (Hnone ch Hin).
    apply list_elem_of_lookup. eauto. }
  destruct (guess_separator_spec line) as (i & best & Hg & Hi & Hmax).
  rewrite Hg. f_equal.
  destruct i as [|i]; [simpl in Hi; congruence|exfalso].
  destruct (Hmax 0%nat (u "|") eq_refl) as [_ Hlt].
  rewrite (Hzero 0%nat (u "|") eq_refl), (Hzero (S i) best Hi) in Hlt. lia.
Qed.

(** On ["abc"], which holds no candidate, the detector returns the bar. *)
Lemma guess_separator_default_witness :
  _guess_separator (u "abc") = Return (u "|").
Proof.
  apply (proj1 (guess_separator_default_and_ties (u "abc"))).
  intros ch Hch. change (u "abc") with [97%N; 98%N; 99%N] in Hch.
  rewrite !elem_of_cons in Hch.
  destruct Hch as [->|[->|[->|Hch]]]; [| | |apply elem_of_nil in Hch; destruct Hch];
    unfold COMMON_SEPARATORS; rewrite !elem_of_cons;
    intros [H|[H|[H|[H|H]]]]; try discriminate H;
    apply elem_of_nil in H; destruct H.
Defined.

(** ** The date normaliser *)

Lemma fmt_d_checked_range w bound y :
  forallb (fmt_d_checked w) (seq 0 (Z.to_nat bound)) = true ->
  0 <= y < bound ->
  length (fmt_d w y) = w /\ digits_value (fmt_d w y) = Some y.
Proof.
  intros Hall Hy. rewrite forallb_forall in Hall.
  specialize (Hall (Z.to_nat y)). rewrite in_seq in Hall.
  unfold fmt_d_checked in Hall. rewrite Z2Nat.id in Hall by lia.
  apply andb_prop in Hall; [|lia]. destruct Hall as [Hl Hv].
  apply Nat.eqb_eq in Hl. apply bool_decide_eq_true in Hv. auto.
Qed.

Lemma fmt_d_4 y :
  0 <= y <= 9999 ->
  length (fmt_d 4 y) = 4%nat /\ digits_value (fmt_d 4 y) = Some y.
Proof.
  intros Hy. apply (fmt_d_checked_range 4 10000); [|lia].
  vm_compute. reflexivity.
Qed.

Lemma fmt_d_2 n :
  0 <= n <= 99 ->
  length (fmt_d 2 n) = 2%nat /\ digits_value (fmt_d 2 n) = Some n.
Proof.
  intros Hn. apply (fmt_d_checked_range 2 100); [|lia].
  vm_compute. reflexivity.
Qed.

Lemma days_in_month_le y m : days_in_month y m <= 31.
Proof.
  unfold days_in_month.
  destruct (m =? 2); [destruct (is_leap y); lia|].
  destruct ((m =? 4) || (m =? 6) || (m =? 9) || (m =? 11)); lia.
Qed.

Lemma valid_date_bounds y m d :
  valid_date y m d = true ->
  1 <= y <= 9999 /\ 1 <= m <= 12 /\ 1 <= d <= 31.
Proof.
  unfold valid_date, MINYEAR, MAXYEAR. rewrite !andb_true_iff, !Z.leb_le.
  pose proof (days_in_month_le y m). lia.
Qed.

Lemma valid_date_fits y m d :
  valid_date y m d = true ->
  fits_c_int y && fits_c_int m && fits_c_int d = true.
Proof.
  intros H. apply valid_date_bounds in H. unfold fits_c_int.
  rewrite !andb_true_iff, !Z.leb_le. lia.
Qed.

Lemma date_new_valid y m d :
  valid_date y m d = true ->
  date_new y m d = Return {| year := y; month := m; day := d |}.
Proof.
  intros H. unfold date_new. now rewrite (valid_date_fits _ _ _ H), H.
Qed.

Lemma date_new_invalid y m d :
  valid_date y m d = false ->
  date_new y m d = Raise OverflowError \/ date_new y m d = Raise ValueError.
Proof.
  intros H. unfold date_new. rewrite H.
  destruct (fits_c_int y && fits_c_int m && fits_c_int d); auto.
Qed.

(** A date that the constructor accepts is printed as YYYY-MM-DD, and
    reading the digits back yields the date. *)
Lemma parse_iso_isoformat dt :
  valid_date (year dt) (month dt) (day dt) = true ->
  parse_iso (isoformat dt) = Some dt.
Proof.
  destruct dt as [y m d]. simpl. intros H.
  apply valid_date_bounds in H. destruct H as (Hy & Hm & Hd).
  unfold isoformat. simpl year; simpl month; simpl day.
  destruct (fmt_d_4 y ltac:(lia)) as [Hly Hvy].
  destruct (fmt_d_2 m ltac:(lia)) as [Hlm Hvm].
  destruct (fmt_d_2 d ltac:(lia)) as [Hld Hvd].
  destruct (fmt_d 4 y) as [|y1 [|y2 [|y3 [|y4 [|? ?]]]]]; try discriminate Hly.
  destruct (fmt_d 2 m) as [|m1 [|m2 [|? ?]]]; try discriminate Hlm.
  destruct (fmt_d 2 d) as [|d1 [|d2 [|? ?]]]; try discriminate Hld.
  change (parse_iso _) with
    (y ← digits_value [y1; y2; y3; y4];
     m ← digits_value [m1; m2];
     d ← digits_value [d1; d2];
     Some {| year := y; month := m; day := d |}).
  rewrite Hvy, Hvm, Hvd. reflexivity.
Qed.

Section InterpreterFacts.

Variable unicode_decimal : char -> option N.
Variable int_max_str_digits : nat.

Local Abbreviation py_int := (py_int unicode_decimal int_max_str_digits).
Local Abbreviation _safe_iso := (_safe_iso unicode_decimal int_max_str_digits).
Local Abbreviation safe_iso_value :=
  (safe_iso_value unicode_decimal int_max_str_digits).
Local Abbreviation reads_as_date :=
  (reads_as_date unicode_decimal int_max_str_digits).

Lemma py_int_raises s e : py_int s = Raise e -> e = ValueError.
Proof.
  unfold py_int.
  destruct (lstrip_by is_c_space (map _ s)) as [|c b]; [congruence|].
  destruct (if (c =? 43)%N then _ else _) as [neg b'].
  destruct b' as [|c' b']; [congruence|].
  destruct (c' =? 95)%N; [congruence|].
  destruct (scan_digits 0 0 false (c' :: b')) as [[[v n] rest]|]; [|congruence].
  destruct (n =? 0)%nat; [congruence|].
  destruct (over_digit_limit int_max_str_digits n); [congruence|].
  destruct (lstrip_by is_c_space rest); congruence.
Qed.

Lemma over_digit_limit_small n :
  (n <= 640)%nat -> over_digit_limit int_max_str_digits n = false.
Proof.
  intros H. unfold over_digit_limit.
  destruct (Nat.ltb_spec 640 n); [lia|]. apply andb_false_r.
Qed.

Lemma safe_iso_returns raw : _safe_iso raw = Return (safe_iso_value raw).
Proof.
  unfold _safe_iso, safe_iso_value, _safe_iso_try. fold DOT.
  destruct (split_char DOT (strip raw)) as [|d [|m [|y [|? ?]]]];
    try reflexivity.
  destruct (length y =? 4)%nat; [|reflexivity].
  destruct (py_int y) as [yy|e] eqn:Hy;
    [|apply py_int_raises in Hy; subst; reflexivity].
  destruct (py_int m) as [mm|e] eqn:Hm;
    [|apply py_int_raises in Hm; subst; reflexivity].
  destruct (py_int d) as [dd|e] eqn:Hd;
    [|apply py_int_raises in Hd; subst; reflexivity].
  cbn. destruct (valid_date yy mm dd) eqn:Hv.
  - rewrite (date_new_valid _ _ _ Hv). reflexivity.
  - destruct (date_new_invalid _ _ _ Hv) as [-> | ->]; reflexivity.
Qed.

Lemma safe_iso_value_date raw dt :
  reads_as_date (strip raw) dt -> safe_iso_value raw = isoformat dt.
Proof.
  intros (d & m & y & Hs & Hd & Hm & Hy & Hl & Hpy & Hpm & Hpd & Hv).
  unfold safe_iso_value.
  rewrite (proj2 (split_char_three DOT (strip raw) d m y)) by auto.
  rewrite Hl, Hpy, Hpm, Hpd, Hv. now destruct dt.
Qed.

Lemma safe_iso_value_cases raw :
  (exists dt, reads_as_date (strip raw) dt /\ safe_iso_value raw = isoformat dt)
  \/ ((~ exists dt, reads_as_date (strip raw) dt) /\ safe_iso_value raw = NULL).
Proof.
  destruct (split_char DOT (strip raw)) as [|d [|m [|y [|z ps]]]] eqn:Hsp.
  1,2,3,5: right; split; [|unfold safe_iso_value; now rewrite Hsp];
    intros (dt & d' & m' & y' & Hs & Hd & Hm & Hy & _);
    rewrite (proj2 (split_char_three DOT (strip raw) d' m' y')) in Hsp by auto;
    discriminate Hsp.
  assert (Hnot : forall dt, reads_as_date (strip raw) dt ->
            length y = 4%nat /\ py_int y = Return (year dt) /\
            py_int m = Return (month dt) /\ py_int d = Return (day dt) /\
            valid_date (year dt) (month dt) (day dt) = true).
  { intros dt (d' & m' & y' & Hs & Hd & Hm & Hy & Hrest).
    rewrite (proj2 (split_char_three DOT (strip raw) d' m' y')) in Hsp by auto.
    injection Hsp as -> -> ->. exact Hrest. }
  unfold safe_iso_value. rewrite Hsp.
  destruct (Nat.eqb_spec (length y) 4) as [Hl|Hl];
    [|right; split; [|reflexivity]; intros (dt & H); apply Hnot in H; tauto].
  destruct (py_int y) as [yy|e] eqn:Hy;
    [|right; split; [|reflexivity]; intros (dt & H); apply Hnot in H;
      destruct H as (_ & H & _); discriminate H].
  destruct (py_int m) as [mm|e] eqn:Hm;
    [|right; split; [|reflexivity]; intros (dt & H); apply Hnot in H;
      destruct H as (_ & _ & H & _); discriminate H].
  destruct (py_int d) as [dd|e] eqn:Hd;
    [|right; split; [|reflexivity]; intros (dt & H); apply Hnot in H;
      destruct H as (_ & _ & _ & H & _); discriminate H].
  destruct (valid_date yy mm dd) eqn:Hv.
  - left. exists {| year := yy; month := mm; day := dd |}. split; [|reflexivity].
    apply split_char_three in Hsp. destruct Hsp as (Hs & Hdd & Hdm & Hdy).
    exists d, m, y. simpl. auto 10.
  - right. split; [|reflexivity]. intros (dt & H). apply Hnot in H.
    destruct H as (_ & H1 & H2 & H3 & H4).
    injection H1 as H1. injection H2 as H2. injection H3 as H3.
    rewrite <- H1, <- H2, <- H3 in H4. congruence.
Qed.

Lemma safe_iso_value_null raw :
  (~ exists dt, reads_as_date (strip raw) dt) -> safe_iso_value raw = NULL.
Proof.
  intros Hn. destruct (safe_iso_value_cases raw) as [(dt & H & _)|[_ H]];
    [exfalso; eauto | exact H].
Qed.

Lemma scan_digits_count acc n0 prev_us s v n rest :
  scan_digits acc n0 prev_us s = Some (v, n, rest) ->
  (n <= n0 + length s)%nat.
Proof.
  revert acc n0 prev_us. induction s as [|c s IH]; intros acc n0 prev_us; simpl.
  - destruct prev_us; [discriminate|]. intros H. injection H as _ <- _. lia.
  - destruct (digit_val c) as [d|].
    + intros H. apply IH in H. lia.
    + destruct (c =? 95)%N.
      * destruct prev_us; [discriminate|]. intros H. apply IH in H. lia.
      * destruct prev_us; [discriminate|]. intros H. injection H as _ <- _. lia.
Qed.

Lemma lstrip_by_length p s : (length (lstrip_by p s) <= length s)%nat.
Proof.
  destruct (lstrip_by_suffix p s) as [t Ht]. rewrite Ht at 2.
  rewrite length_app. lia.
Qed.

End InterpreterFacts.

Lemma map_to_ascii_digit table s :
  forallb (fun c => c <? 127)%N s = true ->
  map (to_ascii_digit table) s = s.
Proof.
  induction s as [|c s IH]; simpl; [reflexivity|].
  rewrite andb_true_iff. intros [Hc Hs]. rewrite (IH Hs).
  unfold to_ascii_digit. now rewrite Hc.
Qed.

(** On an ASCII part of at most 640 characters [int] does not depend on
    the interpreter's digit table and digit limit. *)
Lemma py_int_ascii_short table limit s :
  ascii_short s = true -> py_int table limit s = py_int ascii_only 0 s.
Proof.
  unfold ascii_short. rewrite andb_true_iff, Nat.leb_le. intros [Hascii Hlen].
  unfold py_int. rewrite !map_to_ascii_digit by assumption.
  pose proof (lstrip_by_length is_c_space s) as Hb.
  destruct (lstrip_by is_c_space s) as [|c b]; [reflexivity|].
  assert (Hb' : forall neg b',
             (length b' <= length (c :: b))%nat ->
             match b' with
             | [] => Raise ValueError
             | c0 :: _ =>
                 if (c0 =? 95)%N then Raise ValueError
                 else match scan_digits 0 0 false b' with
                      | None => Raise ValueError
                      | Some (v, n, rest) =>
                          if (n =? 0)%nat then Raise ValueError
                          else if over_digit_limit limit n
                               then Raise ValueError
                               else match lstrip_by is_c_space rest with
                                    | [] => Return (if neg : bool then - v else v)
                                    | _ :: _ => Raise ValueError
                                    end
                      end
             end
             = match b' with
               | [] => Raise ValueError
               | c0 :: _ =>
                   if (c0 =? 95)%N then Raise ValueError
                   else match scan_digits 0 0 false b' with
                        | None => Raise ValueError
                        | Some (v, n, rest) =>
                            if (n =? 0)%nat then Raise ValueError
                            else if over_digit_limit 0 n
                                 then Raise ValueError
                                 else match lstrip_by is_c_space rest with
                                      | [] => Return (if neg : bool then - v else v)
                                      | _ :: _ => Raise ValueError
                                      end
                        end
               end).
  { intros neg b' Hl. destruct b' as [|c0 b0]; [reflexivity|].
    destruct (c0 =? 95)%N; [reflexivity|].
    destruct (scan_digits 0 0 false (c0 :: b0)) as [[[v n] rest]|] eqn:Hs;
      [|reflexivity].
    apply scan_digits_count in Hs.
    now rewrite !over_digit_limit_small by lia. }
  destruct (c =? 43)%N; [exact (Hb' false b ltac:(simpl; lia))|].
  destruct (c =? 45)%N;
    [exact (Hb' true b ltac:(simpl; lia)) | exact (Hb' false (c :: b) (le_n _))].
Qed.

Lemma safe_iso_value_ascii table limit raw :
  forallb ascii_short (split_char DOT (strip raw)) = true ->
  safe_iso_value table limit raw = safe_iso_value ascii_only 0 raw.
Proof.
  unfold safe_iso_value.
  destruct (split_char DOT (strip raw)) as [|d [|m [|y [|? ?]]]];
    try reflexivity.
  simpl. rewrite !andb_true_iff. intros (Hd & Hm & Hy & _).
  now rewrite (py_int_ascii_short table limit y Hy),
    (py_int_ascii_short table limit m Hm), (py_int_ascii_short table limit d Hd).
Qed.

(** The normaliser on an ASCII string, run with the plain interpreter. *)
Lemma safe_iso_ascii table limit raw :
  forallb ascii_short (split_char DOT (strip raw)) = true ->
  _safe_iso table limit raw = _safe_iso ascii_only 0 raw.
Proof.
  intros H. rewrite !safe_iso_returns. f_equal.
  now apply safe_iso_value_ascii.
Qed.


(** ** The record transformer, one line *)

Lemma null_or_trim_empty s : strip s = [] -> null_or_trim s = NULL.
Proof. unfold null_or_trim. now intros ->. Qed.

Lemma null_or_trim_nonempty s : strip s <> [] -> null_or_trim s = strip s.
Proof. unfold null_or_trim. now destruct (strip s). Qed.

Lemma fit_columns_length columns fields :
  length (fit_columns columns fields) = length columns.
Proof.
  unfold fit_columns. rewrite length_take, length_app, length_replicate. lia.
Qed.

Lemma fit_columns_lookup columns fields (i : nat) :
  (i < length columns)%nat ->
  fit_columns columns fields !! i
  = Some (match fields !! i with Some f => f | None => Some [] end).
Proof.
  intros Hi. unfold fit_columns. rewrite lookup_take_lt by assumption.
  destruct (fields !! i) as [f|] eqn:Hf.
  - rewrite lookup_app_l by (eapply lookup_lt_Some; eassumption). assumption.
  - apply lookup_ge_None in Hf. rewrite lookup_app_r by assumption.
    apply lookup_replicate_2. lia.
Qed.

Lemma fit_columns_truncate columns fields :
  (length columns <= length fields)%nat ->
  fit_columns columns fields = take (length columns) fields.
Proof. intros H. unfold fit_columns. now rewrite take_app_le. Qed.

Lemma fit_columns_pad columns fields :
  (length fields <= length columns)%nat ->
  fit_columns columns fields
  = fields ++ replicate (length columns - length fields) (Some []).
Proof.
  intros H. unfold fit_columns. rewrite take_app_ge by assumption.
  f_equal. rewrite take_replicate. f_equal. lia.
Qed.

Lemma fit_columns_no_None columns fields :
  None ∉ take (length columns) fields -> None ∉ fit_columns columns fields.
Proof.
  intros Hn. unfold fit_columns. rewrite take_app, not_elem_of_app.
  split; [exact Hn|].
  intros H. apply elem_of_take in H as (j & H & _).
  apply list_elem_of_lookup_2, elem_of_replicate_inv in H. discriminate H.
Qed.

Lemma mapM_null_if_empty_Return fields out :
  mapM null_if_empty fields = Return out ->
  Forall2 (fun f o => exists s, f = Some s /\ o = null_or_trim s) fields out.
Proof.
  revert out. induction fields as [|f fields IH]; intros out; simpl.
  - intros H. injection H as <-. constructor.
  - destruct f as [s|]; [|discriminate]. cbn.
    destruct (mapM null_if_empty fields) as [k|e]; cbn; [|discriminate].
    intros H. injection H as <-. constructor; [eauto | now apply IH].
Qed.

Lemma mapM_null_if_empty_Some fields :
  None ∉ fields ->
  mapM null_if_empty fields
  = Return (map (fun f => null_or_trim (default [] f)) fields).
Proof.
  induction fields as [|f fields IH]; intros Hn; [reflexivity|].
  rewrite not_elem_of_cons in Hn. destruct Hn as [Hf Hn].
  destruct f as [s|]; [|congruence]. simpl. cbn. rewrite (IH Hn). reflexivity.
Qed.

Lemma mapM_null_if_empty_Raise fields e :
  mapM null_if_empty fields = Raise e -> e = AttributeError /\ None ∈ fields.
Proof.
  induction fields as [|f fields IH]; simpl; [discriminate|].
  destruct f as [s|]; cbn.
  - destruct (mapM null_if_empty fields) as [k|e']; cbn; [discriminate|].
    intros H. injection H as ->. destruct (IH eq_refl) as [-> Hin].
    split; [reflexivity | now apply list_elem_of_further].
  - intros H. injection H as <-. split; [reflexivity | apply list_elem_of_here].
Qed.

Section TransformerFacts.

Variable unicode_decimal : char -> option N.
Variable int_max_str_digits : nat.
Variable unicode_lower : char -> str.

Local Abbreviation _safe_iso := (_safe_iso unicode_decimal int_max_str_digits).
Local Abbreviation safe_iso_value :=
  (safe_iso_value unicode_decimal int_max_str_digits).
Local Abbreviation normalise_dates :=
  (normalise_dates unicode_decimal int_max_str_digits).
Local Abbreviation transform_line :=
  (transform_line unicode_decimal int_max_str_digits).
Local Abbreviation date_idx := (date_idx unicode_lower).
Local Abbreviation is_date_column := (is_date_column unicode_lower).
Local Abbreviation emitted_field :=
  (emitted_field unicode_decimal int_max_str_digits unicode_lower).

(** The loop over the date columns never raises and rewrites exactly the
    fields at the listed places. *)
Lemma normalise_dates_returns (idxs : list nat) (fields : list str) :
  NoDup idxs ->
  (forall i, i ∈ idxs -> (i < length fields)%nat) ->
  normalise_dates idxs fields
  = Return (imap (fun i f => if decide (i ∈ idxs) then safe_iso_value f else f)
                 fields).
Proof.
  revert fields. induction idxs as [|idx idxs IH]; intros fields Hnd Hlt.
  - simpl. f_equal. apply list_eq. intros i. rewrite list_lookup_imap.
    destruct (fields !! i); simpl; [|reflexivity].
    destruct (decide (i ∈ [])) as [H|_]; [|reflexivity].
    now apply elem_of_nil in H.
  - apply NoDup_cons in Hnd as [Hni Hnd]. simpl.
    destruct (fields !! idx) as [f|] eqn:Hf.
    2:{ apply lookup_ge_None in Hf.
        specialize (Hlt idx (list_elem_of_here _ _)). lia. }
    rewrite safe_iso_returns. cbn.
    rewrite IH; [|assumption|].
    2:{ intros i Hi. rewrite length_insert. apply Hlt. now right. }
    f_equal. apply list_eq. intros i. rewrite !list_lookup_imap.
    destruct (decide (i = idx)) as [->|Hne].
    + rewrite list_lookup_insert_eq by (eapply lookup_lt_Some; eassumption).
      rewrite Hf. simpl.
      destruct (decide (idx ∈ idxs)); [contradiction|].
      destruct (decide (idx ∈ idx :: idxs)) as [|Hn]; [reflexivity|].
      exfalso. apply Hn. left.
    + rewrite list_lookup_insert_ne by congruence.
      destruct (fields !! i); simpl; [|reflexivity]. f_equal.
      destruct (decide (i ∈ idxs)) as [Hi|Hi];
        destruct (decide (i ∈ idx :: idxs)) as [Hi'|Hi']; try reflexivity.
      * exfalso. apply Hi'. now right.
      * apply elem_of_cons in Hi' as [?|?]; [congruence|contradiction].
Qed.

(** The result is the same in whatever order the places are visited. *)
Lemma normalise_dates_any_order (idxs idxs' : list nat) (fields : list str) :
  NoDup idxs -> idxs ≡ₚ idxs' ->
  (forall i, i ∈ idxs -> (i < length fields)%nat) ->
  normalise_dates idxs' fields = normalise_dates idxs fields.
Proof.
  intros Hnd Hperm Hlt.
  rewrite (normalise_dates_returns idxs) by assumption.
  rewrite (normalise_dates_returns idxs').
  - f_equal. apply list_eq. intros i. rewrite !list_lookup_imap.
    destruct (fields !! i); simpl; [|reflexivity]. f_equal.
    destruct (decide (i ∈ idxs)) as [Hi|Hi];
      destruct (decide (i ∈ idxs')) as [Hi'|Hi']; try reflexivity;
      exfalso; [apply Hi'; now rewrite <- Hperm | apply Hi; now rewrite Hperm].
  - now rewrite <- Hperm.
  - intros i Hi. apply Hlt. now rewrite Hperm.
Qed.

Lemma date_idx_from_spec (k : nat) (columns : list str) (i : nat) :
  i ∈ map fst (List.filter (fun ic => is_date_column (snd ic))
                           (zip (seq k (length columns)) columns))
  <-> (k <= i)%nat /\
      exists c, columns !! (i - k)%nat = Some c /\ is_date_column c = true.
Proof.
  revert k. induction columns as [|c columns IH]; intros k; simpl.
  - split; [intros H; now apply elem_of_nil in H|].
    intros (_ & c & Hc & _). discriminate Hc.
  - destruct (is_date_column c) eqn:Hc; simpl.
    + rewrite elem_of_cons, IH. split.
      * intros [->|(Hk & c' & Hc' & Hd)].
        -- split; [lia|]. exists c. rewrite Nat.sub_diag. auto.
        -- split; [lia|]. exists c'. split; [|assumption].
           replace (i - k)%nat with (S (i - S k)) by lia. assumption.
      * intros (Hk & c' & Hc' & Hd).
        destruct (decide (i = k)) as [->|Hne]; [now left|right].
        split; [lia|]. exists c'. split; [|assumption].
        replace (i - k)%nat with (S (i - S k)) in Hc' by lia. assumption.
    + rewrite IH. split.
      * intros (Hk & c' & Hc' & Hd). split; [lia|]. exists c'.
        split; [|assumption].
        replace (i - k)%nat with (S (i - S k)) by lia. assumption.
      * intros (Hk & c' & Hc' & Hd).
        destruct (decide (i = k)) as [->|Hne].
        { rewrite Nat.sub_diag in Hc'. simpl in Hc'. congruence. }
        split; [lia|]. exists c'. split; [|assumption].
        replace (i - k)%nat with (S (i - S k)) in Hc' by lia. assumption.
Qed.

Lemma elem_of_date_idx (columns : list str) (i : nat) :
  i ∈ date_idx columns
  <-> exists c, columns !! i = Some c /\ is_date_column c = true.
Proof.
  unfold date_idx. rewrite date_idx_from_spec, Nat.sub_0_r.
  split; [tauto | intros H; split; [lia | exact H]].
Qed.

Lemma date_idx_from_NoDup (k : nat) (columns : list str) :
  NoDup (map fst (List.filter (fun ic => is_date_column (snd ic))
                              (zip (seq k (length columns)) columns))).
Proof.
  revert k. induction columns as [|c columns IH]; intros k; simpl.
  - constructor.
  - destruct (is_date_column c); simpl; [|apply IH].
    apply NoDup_cons. split; [|apply IH].
    rewrite date_idx_from_spec. lia.
Qed.

Lemma date_idx_NoDup (columns : list str) : NoDup (date_idx columns).
Proof. apply date_idx_from_NoDup. Qed.

Lemma date_idx_lt (columns : list str) (i : nat) :
  i ∈ date_idx columns -> (i < length columns)%nat.
Proof.
  rewrite elem_of_date_idx. intros (c & Hc & _).
  eapply lookup_lt_Some; eassumption.
Qed.

Lemma transform_line_Return sep_regex columns line rec :
  transform_line sep_regex columns (date_idx columns) line = Return rec ->
  length rec = length columns /\
  forall i : nat, (i < length columns)%nat ->
    exists s,
      fit_columns columns (sep_regex (rstrip_nl line)) !! i = Some (Some s) /\
      rec !! i = Some (emitted_field columns i s).
Proof.
  unfold transform_line.
  destruct (mapM null_if_empty _) as [trimmed|e] eqn:Hm; cbn; [|discriminate].
  apply mapM_null_if_empty_Return in Hm.
  pose proof (Forall2_length _ _ _ Hm) as Hlen.
  rewrite fit_columns_length in Hlen.
  rewrite normalise_dates_returns;
    [|apply date_idx_NoDup|intros i Hi; rewrite <- Hlen; now apply date_idx_lt].
  intros H. injection H as <-. rewrite length_imap. split; [auto|].
  intros i Hi.
  destruct (fit_columns columns (sep_regex (rstrip_nl line)) !! i) as [f|] eqn:Hf.
  2:{ apply lookup_ge_None in Hf. rewrite fit_columns_length in Hf. lia. }
  destruct (Forall2_lookup_l _ _ _ _ _ Hm Hf) as (o & Ho & s & -> & ->).
  exists s. split; [reflexivity|].
  rewrite list_lookup_imap, Ho. reflexivity.
Qed.

Lemma transform_line_total sep_regex columns line :
  None ∉ fit_columns columns (sep_regex (rstrip_nl line)) ->
  exists rec,
    transform_line sep_regex columns (date_idx columns) line = Return rec.
Proof.
  intros Hn. unfold transform_line.
  rewrite (mapM_null_if_empty_Some _ Hn). cbn.
  rewrite normalise_dates_returns; [eauto|apply date_idx_NoDup|].
  intros i Hi. rewrite length_map, fit_columns_length. now apply date_idx_lt.
Qed.

Lemma transform_line_Raise sep_regex columns line e :
  transform_line sep_regex columns (date_idx columns) line = Raise e ->
  e = AttributeError /\
  None ∈ fit_columns columns (sep_regex (rstrip_nl line)).
Proof.
  unfold transform_line.
  destruct (mapM null_if_empty _) as [trimmed|e'] eqn:Hm; cbn.
  - pose proof (Forall2_length _ _ _ (mapM_null_if_empty_Return _ _ Hm)) as Hlen.
    rewrite fit_columns_length in Hlen.
    rewrite normalise_dates_returns;
      [discriminate|apply date_idx_NoDup|].
    intros i Hi. rewrite <- Hlen. now apply date_idx_lt.
  - intros H. injection H as <-. now apply mapM_null_if_empty_Raise.
Qed.

End TransformerFacts.

Section Claims.

Variable unicode_decimal : char -> option N.
Variable int_max_str_digits : nat.
Variable unicode_lower : char -> str.

Local Abbreviation py_int := (py_int unicode_decimal int_max_str_digits).
Local Abbreviation _safe_iso := (_safe_iso unicode_decimal int_max_str_digits).
Local Abbreviation safe_iso_value :=
  (safe_iso_value unicode_decimal int_max_str_digits).
Local Abbreviation reads_as_date :=
  (reads_as_date unicode_decimal int_max_str_digits).
Local Abbreviation normalise_dates :=
  (normalise_dates unicode_decimal int_max_str_digits).
Local Abbreviation transform_line :=
  (transform_line unicode_decimal int_max_str_digits).
Local Abbreviation date_idx := (date_idx unicode_lower).
Local Abbreviation is_date_column := (is_date_column unicode_lower).
Local Abbreviation emitted_field :=
  (emitted_field unicode_decimal int_max_str_digits unicode_lower).

Local Ltac run_safe_iso :=
  rewrite safe_iso_ascii by (vm_compute; reflexivity);
  vm_compute; reflexivity.

Lemma safe_iso_NULL : _safe_iso NULL = Return NULL.
Proof. reflexivity. Qed.

Lemma emitted_field_pad columns (i : nat) : emitted_field columns i [] = NULL.
Proof.
  unfold emitted_field. destruct (decide _); reflexivity.
Qed.

Lemma emitted_field_blank columns (i : nat) s :
  strip s = [] -> emitted_field columns i s = NULL.
Proof.
  intros H. unfold emitted_field.
  rewrite (null_or_trim_empty _ H). destruct (decide _); reflexivity.
Qed.

(** C1. Whatever the split of the line yields, the record written for the
    line has as many fields as there are columns: the fields of the split
    come first and in place, the places the split does not reach hold the
    NULL sentinel, and the fields beyond the last column play no part.
    The only way no record comes out is a field that is [None]. *)
Theorem record_has_one_field_per_column
    (sep_regex : Pattern) (columns : list str) (line : str) :
  let fields := sep_regex (rstrip_nl line) in
  (forall rec,
      transform_line sep_regex columns (date_idx columns) line = Return rec ->
      length rec = length columns
      /\ (forall i : nat, (i < length columns)%nat -> (i < length fields)%nat ->
            exists s, fields !! i = Some (Some s)
                      /\ rec !! i = Some (emitted_field columns i s))
      /\ (forall i : nat, (length fields <= i < length columns)%nat ->
            rec !! i = Some NULL)
      /\ ((length columns <= length fields)%nat ->
            transform_line (fun _ => take (length columns) fields) columns
              (date_idx columns) line = Return rec))
  /\ (None ∉ take (length columns) fields ->
      exists rec,
        transform_line sep_regex columns (date_idx columns) line = Return rec).
Proof.
  intros fields. split.
  - intros rec Hrec.
    destruct (transform_line_Return _ _ _ _ _ _ _ Hrec) as [Hlen Hfield].
    split; [exact Hlen|]. split; [|split].
    + intros i Hi Hlt. destruct (Hfield i Hi) as (s & Hs & Hr).
      exists s. split; [|exact Hr].
      rewrite fit_columns_lookup in Hs by assumption. fold fields in Hs.
      destruct (fields !! i) as [f|] eqn:Hf; [congruence|].
      apply lookup_ge_None in Hf. lia.
    + intros i [Hge Hi]. destruct (Hfield i Hi) as (s & Hs & Hr).
      rewrite fit_columns_lookup in Hs by assumption. fold fields in Hs.
      rewrite (proj2 (lookup_ge_None fields i) Hge) in Hs.
      injection Hs as <-. now rewrite Hr, emitted_field_pad.
    + intros Hle. rewrite <- Hrec. unfold transform_line.
      fold fields. rewrite (fit_columns_truncate columns fields Hle).
      rewrite fit_columns_truncate by (rewrite length_take; lia).
      rewrite take_take, Nat.min_id. reflexivity.
  - intros Hn. apply transform_line_total. fold fields.
    now apply fit_columns_no_None.
Qed.

(** C3, amended. The date normaliser first trims the string.  If what is
    left has exactly three parts between dots, a year part of exactly four
    characters, and parts that [int] reads as integers forming a date
    that [datetime.date] accepts, the result is that date as YYYY-MM-DD;
    for every other input it is the NULL sentinel.  Day 32, month 13 and
    29 February of a common year are among the dates refused. *)
Theorem safe_iso_after_trim (raw : str) :
  (forall dt, reads_as_date (strip raw) dt ->
      _safe_iso raw = Return (isoformat dt)
      /\ parse_iso (isoformat dt) = Some dt)
  /\ ((~ exists dt, reads_as_date (strip raw) dt) ->
      _safe_iso raw = Return NULL)
  /\ _safe_iso (u "05.03.2020") = Return (u "2020-03-05")
  /\ _safe_iso (u "31.02.2020") = Return NULL
  /\ _safe_iso (u "2020-03-05") = Return NULL
  /\ _safe_iso (u "32.01.2020") = Return NULL
  /\ _safe_iso (u "01.13.2020") = Return NULL
  /\ _safe_iso (u "29.02.2021") = Return NULL
  /\ _safe_iso (u "29.02.2020") = Return (u "2020-02-29").
Proof.
  split; [|split].
  - intros dt Hdt. rewrite safe_iso_returns.
    rewrite (safe_iso_value_date _ _ _ _ Hdt). split; [reflexivity|].
    apply parse_iso_isoformat.
    destruct Hdt as (d & m & y & Hdt). tauto.
  - intros Hn. rewrite safe_iso_returns.
    now rewrite safe_iso_value_null.
  - repeat split; run_safe_iso.
Qed.

(** C4. The date normaliser returns on every string, and what it returns is
    the NULL sentinel or a date printed as YYYY-MM-DD; hence the loop
    over the date columns of a record never raises. *)
Theorem safe_iso_never_raises (raw : str) :
  (exists s, _safe_iso raw = Return s
             /\ (s = NULL
                 \/ exists dt,
                      valid_date (year dt) (month dt) (day dt) = true
                      /\ s = isoformat dt /\ parse_iso s = Some dt))
  /\ (forall columns fields,
        length fields = length columns ->
        exists out, normalise_dates (date_idx columns) fields = Return out
                    /\ length out = length columns).
Proof.
  split.
  - exists (safe_iso_value raw). split; [apply safe_iso_returns|].
    destruct (safe_iso_value_cases unicode_decimal int_max_str_digits raw)
      as [(dt & Hdt & ->)|[_ ->]]; [right|now left].
    assert (valid_date (year dt) (month dt) (day dt) = true) as Hv
      by (destruct Hdt as (d & m & y & Hdt); tauto).
    exists dt. split; [exact Hv|]. split; [reflexivity|].
    now apply parse_iso_isoformat.
  - intros columns fields Hlen. eexists. split.
    + apply normalise_dates_returns; [apply date_idx_NoDup|].
      intros i Hi. rewrite Hlen. eapply date_idx_lt; eassumption.
    + now rewrite length_imap.
Qed.

(** C5. In a record that is written, each field comes from the field of
    the padded and cut split at the same place: that field, trimmed, is
    replaced by the NULL sentinel when it is empty and kept as it is when
    it is not; outside the date columns this is the field of the record,
    in a date column the date normaliser is applied to it. *)
Theorem empty_fields_become_NULL
    (sep_regex : Pattern) (columns : list str) (line : str) rec :
  transform_line sep_regex columns (date_idx columns) line = Return rec ->
  forall (i : nat) c, columns !! i = Some c ->
    exists s v,
      fit_columns columns (sep_regex (rstrip_nl line)) !! i = Some (Some s)
      /\ ((strip s = [] /\ v = NULL) \/ (strip s <> [] /\ v = strip s))
      /\ (is_date_column c = false -> rec !! i = Some v)
      /\ (is_date_column c = true ->
          exists r, _safe_iso v = Return r /\ rec !! i = Some r).
Proof.
  intros Hrec i c Hc.
  destruct (transform_line_Return _ _ _ _ _ _ _ Hrec) as [_ Hfield].
  destruct (Hfield i (lookup_lt_Some _ _ _ Hc)) as (s & Hs & Hr).
  exists s, (null_or_trim s). split; [exact Hs|]. split; [|split].
  - destruct (strip s) as [|x t] eqn:Hst.
    + left. split; [reflexivity|]. now apply null_or_trim_empty.
    + right. split; [discriminate|]. rewrite <- Hst.
      apply null_or_trim_nonempty. rewrite Hst. discriminate.
  - intros Hd. rewrite Hr. unfold emitted_field.
    destruct (decide _) as [Hin|_]; [|reflexivity].
    apply elem_of_date_idx in Hin as (c' & Hc' & Hd'). congruence.
  - intros Hd. exists (safe_iso_value (null_or_trim s)).
    split; [apply safe_iso_returns|].
    rewrite Hr. unfold emitted_field.
    destruct (decide _) as [_|Hn]; [reflexivity|].
    exfalso. apply Hn. apply elem_of_date_idx. eauto.
Qed.

(** C10. The date normaliser maps the NULL sentinel to itself, so a field
    of a date column that is empty after trimming is written as the NULL
    sentinel; and a blank line is written as one NULL sentinel per
    column when none of the pieces of its split that the columns take is
    [None], the pieces of a split being slices of the line. *)
Theorem blank_fields_in_date_columns
    (sep_regex : Pattern) (columns : list str) (line : str) :
  _safe_iso NULL = Return NULL
  /\ (forall rec (i : nat) c s,
        transform_line sep_regex columns (date_idx columns) line = Return rec ->
        columns !! i = Some c -> is_date_column c = true ->
        fit_columns columns (sep_regex (rstrip_nl line)) !! i = Some (Some s) ->
        strip s = [] ->
        rec !! i = Some NULL)
  /\ (strip line = [] ->
      (forall p, Some p ∈ sep_regex (rstrip_nl line) ->
                 exists a b, rstrip_nl line = a ++ p ++ b) ->
      None ∉ take (length columns) (sep_regex (rstrip_nl line)) ->
      transform_line sep_regex columns (date_idx columns) line
      = Return (replicate (length columns) NULL)).
Proof.
  split; [reflexivity|]. split.
  - intros rec i c s Hrec Hc Hd Hs Hblank.
    destruct (transform_line_Return _ _ _ _ _ _ _ Hrec) as [_ Hfield].
    destruct (Hfield i (lookup_lt_Some _ _ _ Hc)) as (s' & Hs' & Hr).
    rewrite Hs in Hs'. injection Hs' as <-.
    now rewrite Hr, emitted_field_blank.
  - intros Hblank Hslice Hn.
    assert (Hn' : None ∉ fit_columns columns (sep_regex (rstrip_nl line)))
      by now apply fit_columns_no_None.
    destruct (transform_line_total unicode_decimal int_max_str_digits
                unicode_lower _ _ _ Hn') as [rec Hrec].
    rewrite Hrec. f_equal.
    destruct (transform_line_Return _ _ _ _ _ _ _ Hrec) as [Hlen Hfield].
    apply list_eq. intros i.
    destruct (decide (i < length columns)%nat) as [Hi|Hi].
    + rewrite lookup_replicate_2 by assumption.
      destruct (Hfield i Hi) as (s & Hs & ->). f_equal.
      apply emitted_field_blank.
      rewrite fit_columns_lookup in Hs by assumption.
      destruct (sep_regex (rstrip_nl line) !! i) as [f|] eqn:Hf.
      * injection Hs as ->. apply list_elem_of_lookup_2 in Hf.
        destruct (Hslice s Hf) as (a & b & Hab).
        eapply slice_of_blank; eassumption.
      * injection Hs as <-. reflexivity.
    + rewrite (proj2 (lookup_ge_None _ _)) by (rewrite Hlen; lia).
      symmetry. apply lookup_replicate_None. lia.
Qed.

End Claims.

(** ** The claims on concrete inputs *)

(** The line ["2|Bob"] under three columns gives a record of three fields. *)
Lemma record_has_one_field_per_column_witness :
  exists rec,
    transform_line ascii_only 0 (ws_char_split 0x7C%N) demo_columns
      (date_idx id_lower demo_columns) (u "2|Bob") = Return rec
    /\ length rec = 3%nat
    /\ rec !! 2%nat = Some NULL.
Proof.
  pose proof (record_has_one_field_per_column ascii_only 0 id_lower
                (ws_char_split 0x7C%N) demo_columns (u "2|Bob")) as [Hrec Htot].
  destruct Htot as [rec Hr].
  { refine (bool_decide_unpack _ _). vm_compute. exact I. }
  exists rec. destruct (Hrec rec Hr) as (Hlen & _ & Hpad & _).
  split; [exact Hr|]. split; [exact Hlen|].
  apply Hpad. vm_compute. lia.
Defined.

(** The year part of ["05.03.2020 "] has five characters, and the
    normaliser still returns the date. *)
Lemma safe_iso_untrimmed_counterexample :
  ~ safe_iso_untrimmed_claim (u "05.03.2020 ").
Proof.
  intros [_ H].
  assert (Hn : ~ exists dt, reads_as_date ascii_only 0 (u "05.03.2020 ") dt).
  { intros (dt & d & m & y & Hs & Hd & Hm & Hy & Hl & _).
    pose proof (proj2 (split_char_three DOT _ d m y)
                  (conj Hs (conj Hd (conj Hm Hy)))) as Hsp.
    vm_compute in Hsp. injection Hsp as _ _ <-. discriminate Hl. }
  specialize (H Hn). vm_compute in H. discriminate H.
Qed.

Lemma safe_iso_after_trim_witness :
  _safe_iso ascii_only 0 (u "05.03.2020 ")
  = Return (isoformat {| year := 2020; month := 3; day := 5 |})
  /\ parse_iso (isoformat {| year := 2020; month := 3; day := 5 |})
     = Some {| year := 2020; month := 3; day := 5 |}.
Proof.
  apply (proj1 (safe_iso_after_trim ascii_only 0 (u "05.03.2020 "))).
  exists (u "05"), (u "03"), (u "2020").
  repeat split; try (vm_compute; reflexivity);
    refine (bool_decide_unpack _ _); vm_compute; exact I.
Defined.

Lemma safe_iso_never_raises_witness :
  exists out,
    normalise_dates ascii_only 0 (date_idx id_lower demo_columns)
      [u "1"; u "Alice"; u "01.01.1990"] = Return out
    /\ length out = 3%nat.
Proof.
  apply (proj2 (safe_iso_never_raises ascii_only 0 id_lower [])).
  reflexivity.
Defined.

Lemma empty_fields_become_NULL_witness :
  exists s v,
    fit_columns demo_columns (ws_char_split 0x7C%N (rstrip_nl (u "2|Bob|")))
      !! 2%nat = Some (Some s)
    /\ ((strip s = [] /\ v = NULL) \/ (strip s <> [] /\ v = strip s))
    /\ (is_date_column id_lower (u "birthday") = false ->
        [u "2"; u "Bob"; NULL] !! 2%nat = Some v)
    /\ (is_date_column id_lower (u "birthday") = true ->
        exists r, _safe_iso ascii_only 0 v = Return r
                  /\ [u "2"; u "Bob"; NULL] !! 2%nat = Some r).
Proof.
  apply (empty_fields_become_NULL ascii_only 0 id_lower
           (ws_char_split 0x7C%N) demo_columns (u "2|Bob|")
           [u "2"; u "Bob"; NULL]).
  - vm_compute. reflexivity.
  - reflexivity.
Defined.

Lemma blank_fields_in_date_columns_witness :
  transform_line ascii_only 0 (ws_char_split 0x7C%N) demo_columns
    (date_idx id_lower demo_columns) (u "  " ++ [0x0A%N])
  = Return [NULL; NULL; NULL].
Proof.
  apply (proj2 (proj2 (blank_fields_in_date_columns ascii_only 0 id_lower
                         (ws_char_split 0x7C%N) demo_columns
                         (u "  " ++ [0x0A%N])))).
  - vm_compute. reflexivity.
  - intros p Hp. vm_compute in Hp.
    apply list_elem_of_singleton in Hp. injection Hp as ->.
    exists [], []. vm_compute. reflexivity.
  - refine (bool_decide_unpack _ _). vm_compute. exact I.
Defined.

(** With [(x)?] typed as the separator the split of a blank line is
    ['', None, '', None, '']: [None] has no [strip], line 101 raises
    [AttributeError] and no record is written for the line. *)
Lemma blank_line_counterexample :
  ~ blank_line_claim optional_x_split demo_columns (u "  " ++ [0x0A%N]).
Proof.
  intros H. specialize (H ltac:(vm_compute; reflexivity)).
  vm_compute in H. discriminate H.
Qed.

Example blank_line_split :
  optional_x_split (u "  ") = [Some []; None; Some []; None; Some []]
  /\ transform_line ascii_only 0 optional_x_split demo_columns
       (date_idx id_lower demo_columns) (u "  " ++ [0x0A%N])
     = Raise AttributeError.
Proof. vm_compute. split; reflexivity. Qed.

(** ** The record transformer, the whole file *)

Lemma set_csv_files_id (w : world) dst rows :
  csv_files w !! dst = Some rows -> set_csv_files (insert dst rows) w = w.
Proof.
  intros H. destruct w as [f c wb t i cp sf rp]. unfold set_csv_files. simpl in *.
  f_equal. now apply insert_id.
Qed.

Lemma set_csv_files_twice (w : world) dst rows rows' :
  set_csv_files (insert dst rows') (set_csv_files (insert dst rows) w)
  = set_csv_files (insert dst rows') w.
Proof.
  destruct w as [f c wb t i cp sf rp]. unfold set_csv_files. simpl.
  f_equal. apply insert_insert_eq.
Qed.

Section ScriptFacts.

Variable unicode_decimal : char -> option N.
Variable int_max_str_digits : nat.
Variable unicode_lower : char -> str.
Variable re_compile : str -> option Pattern.
Variable has_tqdm : bool.
Variable _select_file : world -> outcome str * list str.
Variable pg_csv_name : str -> str.

Local Abbreviation transform_line :=
  (transform_line unicode_decimal int_max_str_digits).
Local Abbreviation date_idx := (date_idx unicode_lower).
Local Abbreviation process_lines :=
  (process_lines unicode_decimal int_max_str_digits).
Local Abbreviation _process :=
  (_process unicode_decimal int_max_str_digits unicode_lower has_tqdm).
Local Abbreviation main :=
  (main unicode_decimal int_max_str_digits unicode_lower re_compile has_tqdm
     _select_file pg_csv_name).
Local Abbreviation compile := (compile re_compile).
Local Abbreviation select_file := (select_file _select_file).
Local Abbreviation rows_of := (rows_of unicode_decimal int_max_str_digits).

Lemma process_lines_eq dst sep_regex columns idxs lines w prev :
  csv_files w !! dst = Some prev ->
  process_lines dst sep_regex columns idxs lines w
  = (snd (rows_of sep_regex columns idxs lines),
     set_csv_files
       (insert dst (prev ++ fst (rows_of sep_regex columns idxs lines))) w).
Proof.
  revert w prev. induction lines as [|line lines IH]; intros w prev Hprev.
  - simpl. rewrite app_nil_r. now rewrite set_csv_files_id.
  - simpl. unfold mbind, M_bind, bind, lift.
    destruct (transform_line sep_regex columns idxs line) as [rec|e].
    + unfold writerow at 1. rewrite Hprev. simpl default.
      erewrite IH by (simpl; apply lookup_insert_eq).
      destruct (rows_of sep_regex columns idxs lines) as [rows r]. simpl.
      rewrite set_csv_files_twice. now rewrite <- app_assoc.
    + simpl. rewrite app_nil_r. now rewrite set_csv_files_id.
Qed.

Lemma rows_of_prefix sep_regex columns idxs lines :
  Forall2 (fun line row =>
             transform_line sep_regex columns idxs line = Return row)
          (take (length (fst (rows_of sep_regex columns idxs lines))) lines)
          (fst (rows_of sep_regex columns idxs lines)).
Proof.
  induction lines as [|line lines IH]; simpl; [constructor|].
  destruct (transform_line sep_regex columns idxs line) as [rec|e] eqn:Hl;
    [|constructor].
  destruct (rows_of sep_regex columns idxs lines) as [rows r]. simpl in *.
  now constructor.
Qed.

Lemma rows_of_Return sep_regex columns idxs lines :
  snd (rows_of sep_regex columns idxs lines) = Return tt ->
  length (fst (rows_of sep_regex columns idxs lines)) = length lines.
Proof.
  induction lines as [|line lines IH]; simpl; [reflexivity|].
  destruct (transform_line sep_regex columns idxs line) as [rec|e];
    [|discriminate].
  destruct (rows_of sep_regex columns idxs lines) as [rows r]. simpl in *.
  intros H. now rewrite IH.
Qed.

Lemma rows_of_all sep_regex columns idxs lines :
  Forall (fun line =>
            exists rec, transform_line sep_regex columns idxs line = Return rec)
         lines ->
  snd (rows_of sep_regex columns idxs lines) = Return tt.
Proof.
  induction 1 as [|line lines [rec Hrec] _ IH]; simpl; [reflexivity|].
  rewrite Hrec. destruct (rows_of sep_regex columns idxs lines). exact IH.
Qed.

Lemma rows_of_Raise sep_regex columns idxs lines e :
  snd (rows_of sep_regex columns idxs lines) = Raise e ->
  exists line,
    lines !! length (fst (rows_of sep_regex columns idxs lines)) = Some line
    /\ transform_line sep_regex columns idxs line = Raise e.
Proof.
  induction lines as [|line lines IH]; simpl; [discriminate|].
  destruct (transform_line sep_regex columns idxs line) as [rec|e'] eqn:Hl.
  - destruct (rows_of sep_regex columns idxs lines) as [rows r]. simpl in *.
    exact IH.
  - simpl. intros H. injection H as ->. eauto.
Qed.

(** What [_process] does to the world, when the source can be read. *)
Lemma _process_eq src dst sep_regex columns w text :
  files w !! src = Some text ->
  let w0 := set_files (delete dst) w in
  let run := rows_of sep_regex columns (date_idx columns) (lines_of text) in
  _process src dst sep_regex columns w
  = if has_tqdm
    then (snd run, set_csv_files (insert dst (columns :: fst run)) w0)
    else (Raise TypeError, set_csv_files (insert dst [columns]) w0).
Proof.
  intros Hsrc w0 run. unfold _process, stat_size.
  unfold mbind, M_bind, bind, read_text, ret, open_csv.
  rewrite Hsrc. cbv beta iota. rewrite ?Hsrc. cbv beta iota.
  unfold writerow at 1. simpl csv_files. rewrite lookup_insert_eq.
  simpl default. fold w0. rewrite set_csv_files_twice.
  unfold tqdm_enter. destruct has_tqdm; [|reflexivity].
  unfold ret. erewrite process_lines_eq by (simpl; apply lookup_insert_eq).
  now rewrite set_csv_files_twice.
Qed.

Lemma _process_missing src dst sep_regex columns w :
  files w !! src = None ->
  _process src dst sep_regex columns w = (Raise OSError, w).
Proof.
  intros Hsrc. unfold _process, stat_size.
  unfold mbind, M_bind, bind, read_text. now rewrite Hsrc.
Qed.

(** The transformer writes the header, the column names, before any
    record, then one record per line in the order of the lines: the rows
    after the header are the records of the first lines of the source,
    of all its lines when the transformer returns; and it returns when
    no split yields a [None] field and [tqdm] is at hand. *)
Theorem one_record_per_line_in_order
    (src dst : str) (sep_regex : Pattern) (columns : list str)
    (w : world) (text : str) :
  files w !! src = Some text ->
  src <> dst ->
  exists r w' rows,
    _process src dst sep_regex columns w = (r, w')
    /\ csv_files w' !! dst = Some (columns :: rows)
    /\ Forall2 (fun line row =>
                  transform_line sep_regex columns (date_idx columns) line
                  = Return row)
               (take (length rows) (lines_of text)) rows
    /\ (r = Return tt -> length rows = length (lines_of text))
    /\ (has_tqdm = true ->
        (forall line, line ∈ lines_of text ->
           None ∉ take (length columns) (sep_regex (rstrip_nl line))) ->
        r = Return tt).
Proof.
  intros Hsrc _. rewrite (_process_eq _ _ _ _ _ _ Hsrc).
  set (run := rows_of sep_regex columns (date_idx columns) (lines_of text)).
  destruct has_tqdm.
  - exists (snd run), (set_csv_files (insert dst (columns :: fst run))
                        (set_files (delete dst) w)), (fst run).
    split; [reflexivity|]. split; [simpl; apply lookup_insert_eq|].
    split; [apply rows_of_prefix|]. split; [apply rows_of_Return|].
    intros _ Hsome. apply rows_of_all. apply Forall_forall. intros line Hl.
    apply transform_line_total, fit_columns_no_None. now apply Hsome.
  - exists (Raise TypeError), (set_csv_files (insert dst [columns])
                                (set_files (delete dst) w)), [].
    split; [reflexivity|]. split; [simpl; apply lookup_insert_eq|].
    split; [constructor|]. split; discriminate.
Qed.

End ScriptFacts.

(** The two lines of the example source give two records after the
    header, in the order of the lines. *)
Lemma one_record_per_line_in_order_witness :
  exists r w' rows,
    _process ascii_only 0 id_lower true demo_src demo_dst
      (ws_char_split 0x7C%N) demo_columns (disk_world []) = (r, w')
    /\ csv_files w' !! demo_dst = Some (demo_columns :: rows)
    /\ Forall2 (fun line row =>
                  transform_line ascii_only 0 (ws_char_split 0x7C%N)
                    demo_columns (date_idx id_lower demo_columns) line
                  = Return row)
               (take (length rows) (lines_of demo_text)) rows
    /\ (r = Return tt -> length rows = length (lines_of demo_text))
    /\ (true = true ->
        (forall line, line ∈ lines_of demo_text ->
           None ∉ take (length demo_columns)
                    (ws_char_split 0x7C%N (rstrip_nl line))) ->
        r = Return tt).
Proof.
  apply (one_record_per_line_in_order ascii_only 0 id_lower true
           demo_src demo_dst (ws_char_split 0x7C%N) demo_columns
           (disk_world []) demo_text).
  - vm_compute. reflexivity.
  - intros H. vm_compute in H. discriminate H.
Defined.

Example process_demo :
  let '(r, w') := _process ascii_only 0 id_lower true demo_src demo_dst
                    (ws_char_split 0x7C%N) demo_columns (disk_world []) in
  r = Return tt
  /\ csv_files w' !! demo_dst
     = Some [demo_columns;
             [u "1"; u "Alice"; u "1990-01-01"];
             [u "2"; u "Bob"; NULL]].
Proof. vm_compute. split; reflexivity. Qed.

(** C8, on the code.  Where [tqdm] is missing, the stand-in of lines 20-23
    hands a [range] to the [with] statement of line 96, which raises
    [TypeError] once the header is written: the two lines of the example
    source give no record, in [_process] and in a whole run.  With [tqdm]
    at hand the same source gives its two records.  A separator with a
    group that takes no part in a match ends the transformer at the first
    line it meets, with [AttributeError]. *)
Theorem records_lost_without_tqdm :
  let process := fun has_tqdm sep_regex w =>
    _process ascii_only 0 id_lower has_tqdm demo_src demo_dst sep_regex
      demo_columns w in
  let run :=
    main ascii_only 0 id_lower toy_compile false no_select_file
      posix_pg_csv_name [demo_prog; demo_src]
      (disk_world [u ""; u "id,name,birthday"]) in
  length (lines_of demo_text) = 2%nat
  /\ (fst (process false (ws_char_split 0x7C%N) (disk_world []))
      = Raise TypeError
      /\ csv_files (snd (process false (ws_char_split 0x7C%N) (disk_world [])))
         !! demo_dst = Some [demo_columns])
  /\ (fst run = Raise TypeError
      /\ csv_files (snd run) !! demo_dst = Some [demo_columns])
  /\ (fst (process true (ws_char_split 0x7C%N) (disk_world [])) = Return tt
      /\ csv_files (snd (process true (ws_char_split 0x7C%N) (disk_world [])))
         !! demo_dst
         = Some [demo_columns;
                 [u "1"; u "Alice"; u "1990-01-01"];
                 [u "2"; u "Bob"; NULL]])
  /\ (length (lines_of comma_text) = 2%nat
      /\ fst (process true group_split (comma_world []))
         = Raise AttributeError
      /\ csv_files (snd (process true group_split (comma_world [])))
         !! demo_dst = Some [demo_columns]).
Proof. vm_compute. repeat split; reflexivity. Qed.

(** ** A whole run *)

Lemma bind_inv {A B} (c : M A) (k : A -> M B) w r w' :
  bind c k w = (r, w') ->
  (exists e, c w = (Raise e, w') /\ r = Raise e)
  \/ (exists a w1, c w = (Return a, w1) /\ k a w1 = (r, w')).
Proof.
  unfold bind. destruct (c w) as [[a|e] w1]; intros H.
  - right. eauto.
  - left. injection H as <- <-. eauto.
Qed.

Lemma quiet_refl w : quiet w w.
Proof. split; reflexivity. Qed.

Lemma quiet_trans w1 w2 w3 : quiet w1 w2 -> quiet w2 w3 -> quiet w1 w3.
Proof. intros [H1 H2] [H3 H4]. split; congruence. Qed.

Lemma _ask_quiet default w r w' : _ask default w = (r, w') -> quiet w w'.
Proof.
  unfold _ask. destruct (ask_loop default (stdin w)) as [r0 rest].
  intros H. injection H as _ <-. (split; reflexivity).
Qed.

Lemma read_text_same p w r w' : read_text p w = (r, w') -> w' = w.
Proof.
  unfold read_text. destruct (files w !! p); intros H; now injection H as _ <-.
Qed.

Lemma unlink_quiet p w r w' : unlink p w = (r, w') -> quiet w w'.
Proof.
  unfold unlink. destruct (files w !! p); intros H; injection H as _ <-;
    (split; reflexivity).
Qed.

(** The ways [_get_source] ends: [os.stat] fails; the argument names a
    file; it is neither a file nor a URL; it is a URL, and the temporary
    file cannot be created, or the download fails, or both succeed. *)
Lemma _get_source_cases path_or_url w r w' :
  _get_source path_or_url w = (r, w') ->
  (stat_fails w path_or_url = true /\ r = Raise OSError /\ w' = w)
  \/ (stat_fails w path_or_url = false
      /\ exists q text,
           realpath w path_or_url = Return q /\ files w !! q = Some text
           /\ r = Return {| path := q; cleanup := ret tt |} /\ w' = w)
  \/ (stat_fails w path_or_url = false /\ names_file w path_or_url = false
      /\ startswith_any path_or_url [u "http://"; u "https://"] = false
      /\ r = Raise SystemExit /\ w' = w)
  \/ (stat_fails w path_or_url = false /\ names_file w path_or_url = false
      /\ startswith_any path_or_url [u "http://"; u "https://"] = true
      /\ ((is_Some (files w !! tmp_name w) /\ r = Raise OSError /\ w' = w)
          \/ (files w !! tmp_name w = None /\ web w !! path_or_url = None
              /\ r = Raise OSError
              /\ w' = set_files (insert (tmp_name w) []) w)
          \/ (files w !! tmp_name w = None
              /\ exists text,
                   web w !! path_or_url = Some text
                   /\ r = Return {| path := tmp_name w;
                                    cleanup := unlink (tmp_name w) |}
                   /\ w' = set_files (insert (tmp_name w) text)
                             (set_files (insert (tmp_name w) []) w)))).
Proof.
  unfold _get_source, mbind, M_bind. unfold bind at 1, is_file.
  destruct (stat_fails w path_or_url) eqn:Hstat.
  { intros H. injection H as <- <-. left. auto. }
  destruct (names_file w path_or_url) eqn:Hfile.
  - unfold bind at 1, resolve. unfold names_file in Hfile.
    destruct (realpath w path_or_url) as [q|e]; [|discriminate].
    apply bool_decide_eq_true in Hfile as [text Htext].
    unfold ret. intros H. injection H as <- <-. right. left. eauto 10.
  - destruct (startswith_any path_or_url _) eqn:Hurl.
    + intros H. right. right. right. do 3 (split; [reflexivity|]).
      revert H. unfold bind at 1, NamedTemporaryFile.
      destruct (files w !! tmp_name w) eqn:Htmp.
      { intros H. injection H as <- <-. left. eauto. }
      unfold bind at 1, urlopen. simpl web.
      destruct (web w !! path_or_url) as [text|] eqn:Hweb.
      * unfold bind, write_text, ret. intros H. injection H as <- <-.
        right. right. eauto 10.
      * intros H. injection H as <- <-. right. left. auto.
    + unfold raise. intros H. injection H as <- <-. right. right. left. auto.
Qed.

(** [_get_source] writes no row and compiles nothing, and neither does the
    clean-up it hands back. *)
Lemma _get_source_quiet path_or_url w r w' :
  _get_source path_or_url w = (r, w') ->
  quiet w w'
  /\ forall src, r = Return src ->
       forall w1 r1 w2, cleanup src w1 = (r1, w2) -> quiet w1 w2.
Proof.
  intros H.
  destruct (_get_source_cases _ _ _ _ H)
    as [(_ & -> & ->)
       |[(_ & q & text & _ & _ & -> & ->)
        |[(_ & _ & _ & -> & ->)
         |(_ & _ & _ & [(_ & -> & ->)
                       |[(_ & _ & -> & ->)|(_ & text & _ & -> & ->)]])]]];
    (split; [(split; reflexivity)|]); try discriminate.
  - intros src Hs. injection Hs as <-. simpl.
    intros w1 r1 w2 H1. injection H1 as _ <-. (split; reflexivity).
  - intros src Hs. injection Hs as <-. simpl.
    intros w1 r1 w2. apply unlink_quiet.
Qed.

Lemma _ask_files default w r w' : _ask default w = (r, w') -> files w' = files w.
Proof.
  unfold _ask. destruct (ask_loop default (stdin w)) as [r0 rest].
  intros H. now injection H as _ <-.
Qed.

(** With a default, [_ask] answers from the one line it reads. *)
Lemma _ask_default_inv d w a w' :
  _ask (Some d) w = (Return a, w') ->
  exists l rest, stdin w = l :: rest /\ a = answer d l /\ w' = set_stdin rest w.
Proof.
  unfold _ask, answer. destruct (stdin w) as [|l rest]; simpl; [discriminate|].
  intros H. exists l, rest. split; [reflexivity|].
  destruct (strip l); injection H as <- <-; auto.
Qed.

Lemma source_text_same_disk w w' p :
  same_disk w w' -> source_text w' p = source_text w p.
Proof.
  intros (Hf & Hw & _ & _ & Hr). unfold source_text, names_file.
  now rewrite Hf, Hw, Hr.
Qed.

(** The text read under the path [_get_source] hands back is the text of
    the source. *)
Lemma _get_source_text path_or_url w source w2 text w3 :
  _get_source path_or_url w = (Return source, w2) ->
  read_text (path source) w2 = (Return text, w3) ->
  source_text w path_or_url = Some text
  /\ stdin w2 = stdin w
  /\ files w2 !! path source = Some text.
Proof.
  intros H Hread.
  assert (Hfile : files w2 !! path source = Some text).
  { unfold read_text in Hread. destruct (files w2 !! path source);
      [now injection Hread as -> _ | discriminate]. }
  destruct (_get_source_cases _ _ _ _ H)
    as [(_ & Hr & _)
       |[(_ & q & text0 & Hreal & Hq & Hr & ->)
        |[(_ & _ & _ & Hr & _)
         |(_ & Hno & _ & [(_ & Hr & _)
                         |[(_ & _ & Hr & _)|(_ & text0 & Hweb & Hr & ->)]])]]];
    try discriminate Hr; injection Hr as ->; simpl in Hfile |- *.
  - split; [|auto]. unfold source_text, names_file. rewrite Hreal.
    rewrite bool_decide_eq_true_2 by (rewrite Hfile; eauto). exact Hfile.
  - rewrite lookup_insert_eq in Hfile. injection Hfile as <-.
    split; [|split; [reflexivity | simpl; apply lookup_insert_eq]].
    unfold source_text. now rewrite Hno.
Qed.

Section MainFacts.

Variable unicode_decimal : char -> option N.
Variable int_max_str_digits : nat.
Variable unicode_lower : char -> str.
Variable re_compile : str -> option Pattern.
Variable has_tqdm : bool.
Variable _select_file : world -> outcome str * list str.
Variable pg_csv_name : str -> str.

Local Abbreviation transform_line :=
  (transform_line unicode_decimal int_max_str_digits).
Local Abbreviation date_idx := (date_idx unicode_lower).
Local Abbreviation _process :=
  (_process unicode_decimal int_max_str_digits unicode_lower has_tqdm).
Local Abbreviation main :=
  (main unicode_decimal int_max_str_digits unicode_lower re_compile has_tqdm
     _select_file pg_csv_name).
Local Abbreviation rows_of := (rows_of unicode_decimal int_max_str_digits).

Lemma select_file_quiet w r w' :
  select_file _select_file w = (r, w') -> quiet w w'.
Proof.
  unfold select_file. destruct (_select_file w) as [r0 rest].
  intros H. injection H as _ <-. (split; reflexivity).
Qed.

Lemma path_choice_quiet (b : bool) (x : str) w r w' :
  (if b then ret x else select_file _select_file) w = (r, w') -> quiet w w'.
Proof.
  destruct b; [|apply select_file_quiet].
  unfold ret. intros H. injection H as _ <-. apply quiet_refl.
Qed.

Lemma path_choice_chosen argv w p w1 :
  (if (length argv =? 2)%nat then ret (nth 1 argv [])
   else select_file _select_file) w = (Return p, w1) ->
  chosen _select_file argv w = (Return p, stdin w1) /\ same_disk w w1.
Proof.
  unfold chosen. destruct (length argv =? 2)%nat.
  - unfold ret. intros H. injection H as <- <-.
    split; [reflexivity | repeat split].
  - unfold select_file. destruct (_select_file w) as [r0 rest].
    intros H. injection H as -> <-. split; [reflexivity | repeat split].
Qed.

(** [_process] compiles nothing; the rows it leaves at the destination are
    the header and the records of the first lines of the source, made
    with the pattern it was given. *)
Lemma _process_rows_of src dst sep_regex columns w text r w' :
  files w !! src = Some text ->
  _process src dst sep_regex columns w = (r, w') ->
  compiled w' = compiled w
  /\ exists rows,
       csv_files w' = <[dst := columns :: rows]> (csv_files w)
       /\ Forall2 (fun line row =>
                     transform_line sep_regex columns (date_idx columns) line
                     = Return row)
                  (take (length rows) (lines_of text)) rows.
Proof.
  intros Hsrc. rewrite (_process_eq _ _ _ _ _ _ _ _ _ _ Hsrc).
  destruct has_tqdm; intros H; injection H as _ <-; (split; [reflexivity|]).
  - eexists. simpl. split; [reflexivity | apply rows_of_prefix].
  - exists []. simpl. split; [reflexivity | constructor].
Qed.

(** C9. A run that reads a separator compiles exactly one expression: what
    the caller typed at the separator prompt, trimmed (the suggestion when
    the line is blank), between two [\s*].  When that expression does not
    compile the run ends with [re.error] and nothing is written; when it
    compiles, every record written in the run is made with the one
    compiled pattern, from the lines of the source in their order.  A run
    that ends before the prompt is answered compiles and writes nothing. *)
Theorem invalid_pattern_ends_run (argv : list str) (w : world) r w' :
  main argv w = (r, w') ->
  ((exists e, r = Raise e)
   /\ compiled w' = compiled w /\ csv_files w' = csv_files w)
  \/ exists path_or_url text l rest,
       chosen _select_file argv w = (Return path_or_url, l :: rest)
       /\ source_text w path_or_url = Some text
       /\ let sep_raw := answer (suggested_separator text) l in
          let expr := u "\s*" ++ sep_raw ++ u "\s*" in
          compiled w' = compiled w ++ [expr]
          /\ match re_compile expr with
             | None => r = Raise re_error /\ csv_files w' = csv_files w
             | Some sep_regex =>
                 csv_files w' = csv_files w
                 \/ exists src columns rows,
                      csv_files w'
                      = <[pg_csv_name src := columns :: rows]> (csv_files w)
                      /\ Forall2 (fun line row =>
                                    transform_line sep_regex columns
                                      (date_idx columns) line = Return row)
                                 (take (length rows) (lines_of text)) rows
             end.
Proof.
  unfold main. destruct (2 <? length argv)%nat.
  { unfold raise. intros H. injection H as <- <-. left. eauto. }
  unfold mbind, M_bind. intros H.
  (* the path or URL *)
  apply bind_inv in H as [(e & Hc & ->)|(path_or_url & w1 & Hc & H)].
  { left. apply path_choice_quiet in Hc as [? ?]. eauto. }
  pose proof (path_choice_quiet _ _ _ _ _ Hc) as Hq1.
  apply path_choice_chosen in Hc as [Hchosen Hdisk1].
  (* the source *)
  apply bind_inv in H as [(e & Hc2 & ->)|(source & w2 & Hc2 & H)].
  { left. apply _get_source_quiet in Hc2 as [Hq2 _].
    destruct (quiet_trans _ _ _ Hq1 Hq2). eauto. }
  pose proof (_get_source_quiet _ _ _ _ Hc2) as [Hq2 Hclean].
  specialize (Hclean source eq_refl).
  pose proof (quiet_trans _ _ _ Hq1 Hq2) as Hq.
  (* the first line and the suggestion *)
  apply bind_inv in H as [(e & Hc3 & ->)|(text & w3 & Hc3 & H)];
    pose proof (read_text_same _ _ _ _ Hc3) as ->.
  { left. destruct Hq. eauto. }
  destruct (_get_source_text _ _ _ _ _ _ Hc2 Hc3) as (Htext & Hin2 & Hfile2).
  rewrite (source_text_same_disk _ _ _ Hdisk1) in Htext.
  apply bind_inv in H as [(e & Hc4 & ->)|(suggested & w4 & Hc4 & H)];
    unfold lift in Hc4; apply pair_equal_spec in Hc4 as [Hguess <-].
  { left. destruct Hq. eauto. }
  apply bind_inv in H as [(e & Hc5 & ->)|(human_suggest & w5 & Hc5 & H)];
    unfold lift in Hc5; apply pair_equal_spec in Hc5 as [Htable <-].
  { left. destruct Hq. eauto. }
  assert (Hsug : human_suggest = suggested_separator text)
    by (unfold suggested_separator; now rewrite Hguess, Htable).
  (* the separator *)
  apply bind_inv in H as [(e & Hc6 & ->)|(sep_raw & w6 & Hc6 & H)].
  { left. apply _ask_quiet in Hc6. destruct (quiet_trans _ _ _ Hq Hc6). eauto. }
  pose proof (_ask_quiet _ _ _ _ Hc6) as Hq6.
  pose proof (quiet_trans _ _ _ Hq Hq6) as [Hcsv6 Hcomp6].
  apply _ask_default_inv in Hc6 as (l & rest & Hl & -> & ->).
  simpl in Hcsv6, Hcomp6.
  right. exists path_or_url, text, l, rest.
  split; [now rewrite Hchosen, <- Hin2, Hl|]. split; [exact Htext|].
  rewrite <- Hsug. cbv zeta.
  apply bind_inv in H as [(e & Hc7 & ->)|(sep_regex & w7 & Hc7 & H)];
    unfold compile in Hc7; injection Hc7 as Hre <-.
  { split; [simpl; now rewrite <- Hcomp6|].
    destruct (re_compile _); [discriminate|].
    injection Hre as <-. simpl. auto. }
  destruct (re_compile _) as [p|]; [|discriminate]. injection Hre as ->.
  (* the columns *)
  apply bind_inv in H as [(e & Hc8 & ->)|(cols_raw & w8 & Hc8 & H)];
    pose proof (_ask_files _ _ _ _ Hc8) as Hfile8;
    apply _ask_quiet in Hc8 as [Hcsv8 Hcomp8]; simpl in Hcsv8, Hcomp8, Hfile8.
  { split; [now rewrite Hcomp8, <- Hcomp6|]. left. now rewrite Hcsv8. }
  destruct (parse_columns cols_raw) as [|c columns].
  { unfold raise in H. injection H as _ <-.
    split; [now rewrite Hcomp8, <- Hcomp6|]. left. now rewrite Hcsv8. }
  (* the transformer and the clean-up *)
  unfold try_finally in H.
  destruct (_process (path source) (pg_csv_name (path source)) sep_regex
              (c :: columns) w8) as [rb w9] eqn:Hp.
  apply (_process_rows_of _ _ _ _ _ text) in Hp as [Hcomp9 Hcsv9];
    [|now rewrite Hfile8].
  destruct (cleanup source w9) as [rf w10] eqn:Hcl.
  apply Hclean in Hcl as [Hcsv10 Hcomp10].
  assert (w' = w10) as -> by (destruct rf; now injection H as _ <-).
  split; [now rewrite Hcomp10, Hcomp9, Hcomp8, <- Hcomp6|].
  rewrite Hcsv10. destruct Hcsv9 as (rows & -> & Hrows).
  right. exists (path source), (c :: columns), rows.
  split; [now rewrite Hcsv8, Hcsv6 | exact Hrows].
Qed.

End MainFacts.

(** A run on a URL in which the caller types [(] as the separator. *)
Lemma invalid_pattern_ends_run_witness :
  ((exists e, @Raise unit re_error = Raise e)
   /\ compiled (leaked_world [] [u "\s*(\s*"]) = compiled (web_world [u "("])
   /\ csv_files (leaked_world [] [u "\s*(\s*"]) = csv_files (web_world [u "("]))
  \/ exists path_or_url text l rest,
       chosen no_select_file [demo_prog; demo_url] (web_world [u "("])
       = (Return path_or_url, l :: rest)
       /\ source_text (web_world [u "("]) path_or_url = Some text
       /\ let sep_raw := answer (suggested_separator text) l in
          let expr := u "\s*" ++ sep_raw ++ u "\s*" in
          compiled (leaked_world [] [u "\s*(\s*"])
          = compiled (web_world [u "("]) ++ [expr]
          /\ match toy_compile expr with
             | None => @Raise unit re_error = Raise re_error
                       /\ csv_files (leaked_world [] [u "\s*(\s*"])
                          = csv_files (web_world [u "("])
             | Some sep_regex =>
                 csv_files (leaked_world [] [u "\s*(\s*"])
                 = csv_files (web_world [u "("])
                 \/ exists src columns rows,
                      csv_files (leaked_world [] [u "\s*(\s*"])
                      = <[posix_pg_csv_name src := columns :: rows]>
                          (csv_files (web_world [u "("]))
                      /\ Forall2 (fun line row =>
                                    transform_line ascii_only 0 sep_regex
                                      columns (date_idx id_lower columns) line
                                    = Return row)
                                 (take (length rows) (lines_of text)) rows
             end.
Proof.
  apply (invalid_pattern_ends_run ascii_only 0 id_lower toy_compile true
           no_select_file posix_pg_csv_name
           [demo_prog; demo_url] (web_world [u "("])
           (Raise re_error) (leaked_world [] [u "\s*(\s*"])).
  vm_compute. reflexivity.
Defined.

(** The caller's expression is the one compiled: in the run above the
    expression handed to [re.compile] is [\s*(\s*], it is rejected, and the
    run ends with [re.error] before a row is written. *)
Example typed_expression_is_compiled :
  let run := main ascii_only 0 id_lower toy_compile true no_select_file
               posix_pg_csv_name [demo_prog; demo_url] (web_world [u "("]) in
  fst run = Raise re_error
  /\ compiled (snd run) = [u "\s*(\s*"]
  /\ csv_files (snd run) = ∅.
Proof. vm_compute. repeat split; reflexivity. Qed.

(** Whatever the interpreter, when [re.compile] rejects the expression the
    run ends with [re.error] and leaves the downloaded copy on disk. *)
Lemma main_leaves_copy_on_invalid_pattern
    unicode_decimal int_max_str_digits unicode_lower re_compile has_tqdm
    _select_file pg_csv_name :
  re_compile (u "\s*(\s*") = None ->
  main unicode_decimal int_max_str_digits unicode_lower re_compile has_tqdm
    _select_file pg_csv_name [u "txt2pgcsv.py"; demo_url] (web_world [u "("])
  = (Raise re_error, leaked_world [] [u "\s*(\s*"]).
Proof.
  intros H. vm_compute in H. vm_compute. rewrite H. reflexivity.
Qed.

(** C2, on the code.  The source is a URL, so [_get_source] downloads it
    into a temporary file.  When the caller then types a separator that
    does not compile, or no column name, or when the download fails, the
    run ends before the [try] statement of [main] and the temporary file is
    still there; a run that reaches the [try] statement removes it. *)
Theorem temporary_file_left_behind :
  let run := main ascii_only 0 id_lower toy_compile true no_select_file
               posix_pg_csv_name in
  let argv := [u "txt2pgcsv.py"; demo_url] in
  (fst (run argv (web_world [u "("])) = Raise re_error
   /\ files (snd (run argv (web_world [u "("]))) !! demo_tmp = Some demo_text)
  /\ (fst (run argv (web_world [u ""; u " , "])) = Raise SystemExit
      /\ files (snd (run argv (web_world [u ""; u " , "]))) !! demo_tmp
         = Some demo_text)
  /\ (fst (run [u "txt2pgcsv.py"; u "http://host/missing.txt"] (web_world []))
      = Raise OSError
      /\ files (snd (run [u "txt2pgcsv.py"; u "http://host/missing.txt"]
                       (web_world []))) !! demo_tmp = Some [])
  /\ (fst (run argv (web_world [u ""; u "id,name,birthday"])) = Return tt
      /\ files (snd (run argv (web_world [u ""; u "id,name,birthday"])))
           !! demo_tmp = None).
Proof. vm_compute. repeat split; reflexivity. Qed.

(** * Further properties *)

(** ** More on trimming *)

Lemma lstrip_by_keep p c s : p c = false -> lstrip_by p (c :: s) = c :: s.
Proof. intros H. simpl. now rewrite H. Qed.

Lemma lstrip_by_idem p s : lstrip_by p (lstrip_by p s) = lstrip_by p s.
Proof.
  destruct (lstrip_by p s) as [|c r] eqn:H; [reflexivity|].
  apply lstrip_by_keep. eapply lstrip_by_head; eassumption.
Qed.

Lemma lstrip_by_app p a b :
  lstrip_by p (a ++ b)
  = match lstrip_by p a with [] => lstrip_by p b | r => r ++ b end.
Proof.
  induction a as [|c a IH]; simpl; [reflexivity|].
  destruct (p c); [exact IH | reflexivity].
Qed.

Lemma rstrip_by_idem p s : rstrip_by p (rstrip_by p s) = rstrip_by p s.
Proof. unfold rstrip_by. now rewrite rev_involutive, lstrip_by_idem. Qed.

Lemma rstrip_by_keep p c s :
  p c = false -> rstrip_by p (c :: s) = c :: rstrip_by p s.
Proof.
  intros H. unfold rstrip_by. simpl rev. rewrite lstrip_by_app.
  destruct (lstrip_by p (rev s)) as [|x r] eqn:Hr.
  - simpl. now rewrite H.
  - now rewrite rev_app_distr.
Qed.

Lemma rstrip_by_app_blank p s b :
  Forall (fun c => p c = true) b -> rstrip_by p (s ++ b) = rstrip_by p s.
Proof.
  intros Hb. unfold rstrip_by. rewrite rev_app_distr, lstrip_by_app.
  rewrite lstrip_by_all; [reflexivity|]. now apply Forall_rev.
Qed.

Lemma lstrip_by_app_blank p a s :
  Forall (fun c => p c = true) a -> lstrip_by p (a ++ s) = lstrip_by p s.
Proof. intros Ha. rewrite lstrip_by_app. now rewrite lstrip_by_all. Qed.

(** A trimmed string: empty, or with no white space at either end. *)
Lemma strip_idem s : strip (strip s) = strip s.
Proof.
  unfold strip at 2 3.
  destruct (lstrip_by is_space s) as [|c r] eqn:Hl; [reflexivity|].
  apply lstrip_by_head in Hl.
  rewrite (rstrip_by_keep _ _ _ Hl). unfold strip.
  rewrite (lstrip_by_keep _ _ _ Hl), <- (rstrip_by_keep _ _ _ Hl).
  apply rstrip_by_idem.
Qed.

Lemma strip_app_blank a s b :
  Forall (fun c => is_space c = true) a ->
  Forall (fun c => is_space c = true) b ->
  strip (a ++ s ++ b) = strip s.
Proof.
  intros Ha Hb. unfold strip. rewrite (lstrip_by_app_blank _ _ _ Ha).
  rewrite lstrip_by_app.
  destruct (lstrip_by is_space s) as [|c r] eqn:Hl.
  - now rewrite (lstrip_by_all _ _ Hb).
  - now apply rstrip_by_app_blank.
Qed.

(** A string with no white space at its ends is its own trimmed form. *)
Lemma rstrip_by_last p s d :
  p d = false -> rstrip_by p (s ++ [d]) = s ++ [d].
Proof.
  intros H. unfold rstrip_by. rewrite rev_app_distr. simpl. rewrite H.
  simpl. now rewrite rev_involutive.
Qed.

Lemma strip_fixed c s d :
  is_space c = false -> is_space d = false ->
  strip (c :: s ++ [d]) = c :: s ++ [d].
Proof.
  intros Hc Hd. unfold strip. rewrite (lstrip_by_keep _ _ _ Hc).
  now apply (rstrip_by_last is_space (c :: s) d).
Qed.

Lemma strip_no_space s :
  Forall (fun c => is_space c = false) s -> strip s = s.
Proof.
  intros H. destruct s as [|c s]; [reflexivity|].
  destruct (exists_last (l := c :: s) ltac:(discriminate)) as (s' & d & Hs).
  rewrite Hs in *. apply Forall_app in H as [H1 H2].
  apply Forall_cons in H2 as [Hd _].
  destruct s' as [|c' s']; simpl in *.
  - injection Hs as -> ->. unfold strip. simpl. rewrite Hd. unfold rstrip_by. simpl. now rewrite Hd.
  - apply Forall_cons in H1 as [Hc' _]. now apply strip_fixed.
Qed.

(** The trimmed form is empty or has no white space at either end. *)
Lemma strip_ends s :
  strip s = []
  \/ exists c r d, (strip s = [c] \/ strip s = c :: r ++ [d])
                   /\ is_space c = false /\ is_space d = false.
Proof.
  unfold strip.
  destruct (lstrip_by is_space s) as [|c r] eqn:Hl; [now left|right].
  apply lstrip_by_head in Hl. rewrite (rstrip_by_keep _ _ _ Hl).
  unfold rstrip_by.
  destruct (lstrip_by is_space (rev r)) as [|d r'] eqn:Hr.
  - exists c, [], c. simpl. auto.
  - apply lstrip_by_head in Hr. exists c, (rev r'), d. simpl. auto.
Qed.

(** ** [_ask] *)

Lemma ask_loop_None_spec (input : list str) :
  (forall v rest,
      ask_loop None input = (Return v, rest) <->
      exists blanks l,
        input = blanks ++ l :: rest
        /\ Forall (fun b => strip b = []) blanks
        /\ strip l = v /\ v <> [])
  /\ (forall e rest,
        ask_loop None input = (Raise e, rest) <->
        e = EOFError /\ rest = [] /\ Forall (fun b => strip b = []) input).
Proof.
  induction input as [|l input [IH1 IH2]].
  - split.
    + intros v rest. split; [discriminate|].
      intros (blanks & l & H & _). now destruct blanks.
    + intros e rest. simpl. split.
      * intros H. injection H as <- <-. auto.
      * intros (-> & -> & _). reflexivity.
  - split.
    + intros v rest. simpl. destruct (strip l) as [|c t] eqn:Hl.
      * rewrite IH1. split.
        -- intros (blanks & l' & -> & Hb & Hv & Hne).
           exists (l :: blanks), l'. auto.
        -- intros (blanks & l' & Hin & Hb & Hv & Hne).
           destruct blanks as [|b blanks]; simpl in Hin; injection Hin as <- ->.
           ++ congruence.
           ++ apply Forall_cons in Hb as [_ Hb]. exists blanks, l'. auto.
      * split.
        -- intros H. injection H as <- <-. exists [], l.
           rewrite Hl. repeat split; [constructor|discriminate].
        -- intros (blanks & l' & Hin & Hb & Hv & Hne).
           destruct blanks as [|b blanks]; simpl in Hin; injection Hin as <- ->.
           ++ now rewrite <- Hv, Hl.
           ++ apply Forall_cons in Hb as [Hb _]. congruence.
    + intros e rest. simpl. destruct (strip l) as [|c t] eqn:Hl.
      * rewrite IH2. rewrite Forall_cons. tauto.
      * split; [discriminate|]. intros (_ & _ & H).
        apply Forall_cons in H as [H _]. congruence.
Qed.

Lemma ask_loop_Return (default : option str) (input : list str) v rest :
  ask_loop default input = (Return v, rest) ->
  (default = Some v \/ (v <> [] /\ strip v = v))
  /\ (length rest < length input)%nat.
Proof.
  revert v rest. induction input as [|l input IH]; intros v rest; simpl;
    [discriminate|].
  destruct (strip l) as [|c t] eqn:Hl.
  - destruct default as [d|].
    + intros H. injection H as <- <-. split; [now left | lia].
    + intros H. apply IH in H as [H1 H2]. split; [exact H1 | lia].
  - intros H. injection H as <- <-. split; [|lia].
    right. split; [discriminate|]. rewrite <- Hl. apply strip_idem.
Qed.

(** X1. Without a default, [_ask] skips the blank lines and returns the first
    line that is not blank, trimmed, leaving the lines after it; it raises
    [EOFError] exactly when every line left is blank. *)
Theorem ask_skips_blank_lines (w : world) :
  (forall v w',
      _ask None w = (Return v, w') <->
      exists blanks l rest,
        stdin w = blanks ++ l :: rest
        /\ Forall (fun b => strip b = []) blanks
        /\ strip l = v /\ v <> [] /\ w' = set_stdin rest w)
  /\ (forall e w',
        _ask None w = (Raise e, w') <->
        e = EOFError /\ Forall (fun b => strip b = []) (stdin w)
        /\ w' = set_stdin [] w).
Proof.
  unfold _ask. destruct (ask_loop None (stdin w)) as [r rest0] eqn:Hr.
  pose proof (ask_loop_None_spec (stdin w)) as [H1 H2].
  rewrite Hr in H1, H2. split.
  - intros v w'. split.
    + intros H. injection H as -> <-.
      destruct (proj1 (H1 v rest0) eq_refl) as (blanks & l & Hin & Hb & Hv & Hne).
      exists blanks, l, rest0. auto.
    + intros (blanks & l & rest & Hin & Hb & Hv & Hne & ->).
      assert (H : (r, rest0) = (Return v, rest))
        by (apply H1; exists blanks, l; auto).
      now injection H as -> ->.
  - intros e w'. split.
    + intros H. injection H as -> <-.
      destruct (proj1 (H2 e rest0) eq_refl) as (-> & -> & Hb). auto.
    + intros (-> & Hb & ->).
      assert (H : (r, rest0) = (Raise EOFError, [])) by (apply H2; auto).
      now injection H as -> ->.
Qed.

(** X2. Whatever the default, an answer of [_ask] is the default or a trimmed
    string that is not empty, and at least one line of input is used up. *)
Theorem ask_answer_is_trimmed (default : option str) (w : world) v w' :
  _ask default w = (Return v, w') ->
  (default = Some v \/ (v <> [] /\ strip v = v))
  /\ (length (stdin w') < length (stdin w))%nat.
Proof.
  unfold _ask. destruct (ask_loop default (stdin w)) as [r rest] eqn:Hr.
  intros H. injection H as -> <-. now apply ask_loop_Return in Hr.
Qed.

(** A blank line, then the column names with blanks around them. *)
Lemma ask_answer_is_trimmed_witness :
  (None = Some (u "id, name")
   \/ (u "id, name" <> [] /\ strip (u "id, name") = u "id, name"))
  /\ (length (stdin (disk_world [u "x"]))
      < length (stdin (disk_world [u "  "; u " id, name "; u "x"])))%nat.
Proof.
  apply (ask_answer_is_trimmed None
           (disk_world [u "  "; u " id, name "; u "x"]) (u "id, name")
           (disk_world [u "x"])).
  vm_compute. reflexivity.
Defined.

Lemma strip_infix s : exists a b, s = a ++ strip s ++ b.
Proof.
  unfold strip. destruct (lstrip_by_suffix is_space s) as [a Ha].
  destruct (rstrip_by_prefix is_space (lstrip_by is_space s)) as [b Hb].
  exists a, b. now rewrite <- Hb.
Qed.

Lemma elem_of_strip x s : x ∈ strip s -> x ∈ s.
Proof.
  destruct (strip_infix s) as (a & b & H). intros Hx. rewrite H.
  rewrite !elem_of_app. auto.
Qed.

Lemma strip_NULL : strip NULL = NULL.
Proof. reflexivity. Qed.

(** ** The column names *)

Lemma parse_columns_eq cols_raw :
  parse_columns cols_raw
  = map strip (List.filter (fun c => negb (bool_decide (strip c = [])))
                           (split_char COMMA cols_raw)).
Proof. reflexivity. Qed.

(** X3. The column names [main] keeps are not empty, trimmed and without
    comma; none is kept exactly when every part between commas is blank (the
    case in which [main] exits). *)
Theorem parse_columns_names (cols_raw : str) :
  Forall column_name (parse_columns cols_raw)
  /\ (parse_columns cols_raw = [] <->
      Forall (fun part => strip part = []) (split_char COMMA cols_raw)).
Proof.
  rewrite parse_columns_eq.
  pose proof (split_char_no_sep COMMA cols_raw) as Hsep.
  induction (split_char COMMA cols_raw) as [|p ps IH]; simpl.
  - split; [constructor|]. split; [constructor | reflexivity].
  - apply Forall_cons in Hsep as [Hp Hps]. destruct (IH Hps) as [IH1 IH2].
    destruct (decide (strip p = [])) as [He|Hne].
    + rewrite (bool_decide_eq_true_2 _ He). simpl. split; [exact IH1|].
      rewrite Forall_cons. tauto.
    + rewrite (bool_decide_eq_false_2 _ Hne). simpl. split.
      * constructor; [|exact IH1]. repeat split; [exact Hne|apply strip_idem|].
        intros Hin. apply Hp. now apply elem_of_strip.
      * split; [discriminate|]. intros H. apply Forall_cons in H as [H _].
        contradiction.
Qed.

Lemma is_space_not_comma c : is_space c = true -> c <> COMMA.
Proof. intros H ->. discriminate H. Qed.

(** X4. Column names joined with commas, each with any blanks around it, are
    read back as they were. *)
Theorem parse_columns_round_trip (parts columns : list str) :
  columns <> [] ->
  Forall column_name columns ->
  Forall2 (fun part c =>
             exists a b, part = a ++ c ++ b
                         /\ Forall (fun x => is_space x = true) a
                         /\ Forall (fun x => is_space x = true) b)
          parts columns ->
  parse_columns (join_char COMMA parts) = columns.
Proof.
  intros Hne Hcols Hparts. rewrite parse_columns_eq.
  rewrite split_char_join.
  - clear Hne. revert Hcols.
    induction Hparts as [|part c parts columns Hp _ IH]; intros Hcols;
      [reflexivity|].
    apply Forall_cons in Hcols as [(Hc & Hs & _) Hcols].
    destruct Hp as (a & b & -> & Ha & Hb). simpl.
    rewrite (strip_app_blank _ _ _ Ha Hb), Hs.
    rewrite (bool_decide_eq_false_2 _ Hc). simpl.
    rewrite (strip_app_blank _ _ _ Ha Hb), Hs. now rewrite IH.
  - destruct Hparts; [congruence|discriminate].
  - clear Hne. revert Hcols.
    induction Hparts as [|part c parts columns Hp _ IH]; intros Hcols;
      [constructor|].
    apply Forall_cons in Hcols as [(_ & _ & Hc) Hcols].
    constructor; [|now apply IH].
    destruct Hp as (a & b & -> & Ha & Hb). rewrite !elem_of_app.
    intros [H|[H|H]]; [|contradiction|].
    + rewrite Forall_forall in Ha. now apply Ha, is_space_not_comma in H.
    + rewrite Forall_forall in Hb. now apply Hb, is_space_not_comma in H.
Qed.

(** ** More on the date normaliser *)

Lemma is_digit_char_facts c :
  is_digit_char c = true ->
  c <> DOT /\ is_space c = false /\ (c <? 127)%N = true.
Proof.
  unfold is_digit_char. rewrite andb_true_iff, !N.leb_le. intros [H1 H2].
  assert (Hc : (c = 48 \/ c = 49 \/ c = 50 \/ c = 51 \/ c = 52 \/ c = 53
                \/ c = 54 \/ c = 55 \/ c = 56 \/ c = 57)%N) by lia.
  repeat (destruct Hc as [->|Hc]; [repeat split; discriminate|]).
  subst. repeat split; discriminate.
Qed.

Lemma digit_val_Some c v : digit_val c = Some v -> is_digit_char c = true.
Proof.
  unfold digit_val, is_digit_char.
  now destruct ((48 <=? c) && (c <=? 57))%N.
Qed.

Lemma digits_value_digits s v :
  digits_value s = Some v -> forallb is_digit_char s = true.
Proof.
  unfold digits_value. generalize (Some 0) as acc. revert v.
  induction s as [|c s IH]; intros v acc; simpl; [reflexivity|].
  destruct acc as [a|]; simpl.
  - destruct (digit_val c) as [d|] eqn:Hd; simpl.
    + intros H. rewrite (digit_val_Some _ _ Hd). simpl. eapply IH, H.
    + intros H. exfalso. clear -H. induction s; simpl in H; [discriminate|auto].
  - intros H. exfalso. clear -H. induction s; simpl in H; [discriminate|auto].
Qed.

Lemma forallb_digits s :
  forallb is_digit_char s = true ->
  Forall (fun c => c <> DOT /\ is_space c = false /\ (c <? 127)%N = true) s.
Proof.
  rewrite forallb_forall. intros H. apply Forall_forall. intros c Hc.
  now apply list_elem_of_In, H, is_digit_char_facts in Hc.
Qed.

(** A string of the form YYYY-MM-DD holds no dot and no white space. *)
Lemma parse_iso_chars s dt :
  parse_iso s = Some dt ->
  length s = 10%nat
  /\ Forall (fun c => c <> DOT /\ is_space c = false /\ (c <? 127)%N = true) s.
Proof.
  destruct s as [|y1 [|y2 [|y3 [|y4 [|h1 [|m1 [|m2 [|h2 [|d1 [|d2 [|? ?]]]]]]]]]]];
    try discriminate.
  unfold parse_iso.
  destruct (N.eqb_spec h1 45) as [->|]; [|discriminate].
  destruct (N.eqb_spec h2 45) as [->|]; [|discriminate].
  simpl andb. cbv iota.
  destruct (digits_value [y1; y2; y3; y4]) as [y|] eqn:Hy; [|discriminate].
  destruct (digits_value [m1; m2]) as [m|] eqn:Hm; [|discriminate].
  destruct (digits_value [d1; d2]) as [d|] eqn:Hd; [|discriminate].
  intros _. split; [reflexivity|].
  apply digits_value_digits, forallb_digits in Hy.
  apply digits_value_digits, forallb_digits in Hm.
  apply digits_value_digits, forallb_digits in Hd.
  change [y1; y2; y3; y4; 45%N; m1; m2; 45%N; d1; d2]
    with ([y1; y2; y3; y4] ++ [45%N] ++ [m1; m2] ++ [45%N] ++ [d1; d2]).
  rewrite !Forall_app. repeat split; try assumption;
    repeat constructor; discriminate.
Qed.

Lemma isoformat_chars dt :
  valid_date (year dt) (month dt) (day dt) = true ->
  isoformat dt <> []
  /\ strip (isoformat dt) = isoformat dt
  /\ DOT ∉ isoformat dt.
Proof.
  intros Hv. apply parse_iso_isoformat, parse_iso_chars in Hv as [Hl Hc].
  split; [intros H; now rewrite H in Hl|]. split.
  - apply strip_no_space. eapply Forall_impl; [exact Hc|]. simpl. tauto.
  - intros Hin. rewrite Forall_forall in Hc. now apply Hc in Hin as [? _].
Qed.

Section DateFacts.

Variable unicode_decimal : char -> option N.
Variable int_max_str_digits : nat.
Variable unicode_lower : char -> str.

Local Abbreviation _safe_iso := (_safe_iso unicode_decimal int_max_str_digits).
Local Abbreviation safe_iso_value :=
  (safe_iso_value unicode_decimal int_max_str_digits).
Local Abbreviation reads_as_date :=
  (reads_as_date unicode_decimal int_max_str_digits).
Local Abbreviation transform_line :=
  (transform_line unicode_decimal int_max_str_digits).
Local Abbreviation date_idx := (date_idx unicode_lower).
Local Abbreviation emitted_field :=
  (emitted_field unicode_decimal int_max_str_digits unicode_lower).

Lemma safe_iso_value_shape raw :
  safe_iso_value raw = NULL
  \/ exists dt, valid_date (year dt) (month dt) (day dt) = true
                /\ safe_iso_value raw = isoformat dt.
Proof.
  destruct (safe_iso_value_cases unicode_decimal int_max_str_digits raw)
    as [(dt & Hdt & H)|[_ H]]; [right|now left].
  exists dt. split; [|exact H]. destruct Hdt as (d & m & y & Hdt). tauto.
Qed.

Lemma safe_iso_value_no_dot s :
  DOT ∉ s -> safe_iso_value s = NULL.
Proof.
  intros H. unfold safe_iso_value.
  rewrite split_char_none; [reflexivity|].
  intros Hin. apply H. now apply elem_of_strip.
Qed.

(** X5. Normalising what [_safe_iso] returned gives the NULL sentinel: an ISO
    date holds no dot, so the normaliser is not idempotent on dates. *)
Theorem safe_iso_twice_is_NULL (raw s : str) :
  _safe_iso raw = Return s -> _safe_iso s = Return NULL.
Proof.
  rewrite !safe_iso_returns. intros H. injection H as <-. f_equal.
  destruct (safe_iso_value_shape raw) as [->|(dt & Hv & ->)].
  - reflexivity.
  - apply safe_iso_value_no_dot. now apply isoformat_chars.
Qed.

(** X6. White space around the text plays no part in [_safe_iso]. *)
Theorem safe_iso_ignores_outer_space (a raw b : str) :
  Forall (fun c => is_space c = true) a ->
  Forall (fun c => is_space c = true) b ->
  _safe_iso (a ++ raw ++ b) = _safe_iso raw.
Proof.
  intros Ha Hb. rewrite !safe_iso_returns. f_equal.
  unfold safe_iso_value. now rewrite strip_app_blank.
Qed.

Lemma emitted_field_trimmed columns (i : nat) s :
  emitted_field columns i s <> []
  /\ strip (emitted_field columns i s) = emitted_field columns i s.
Proof.
  assert (Hn : null_or_trim s <> [] /\ strip (null_or_trim s) = null_or_trim s).
  { unfold null_or_trim. destruct (strip s) as [|c t] eqn:Hs.
    - split; [discriminate|reflexivity].
    - split; [discriminate|]. rewrite <- Hs. apply strip_idem. }
  unfold emitted_field. destruct (decide _); [|exact Hn].
  destruct (safe_iso_value_shape (null_or_trim s)) as [->|(dt & Hv & ->)].
  - split; [discriminate|reflexivity].
  - destruct (isoformat_chars dt Hv) as (? & ? & _). auto.
Qed.

(** X7. No field of a record is empty, and none has white space at its ends.
    *)
Theorem record_fields_trimmed_nonempty
    (sep_regex : Pattern) (columns : list str) (line : str) rec :
  transform_line sep_regex columns (date_idx columns) line = Return rec ->
  Forall (fun f => f <> [] /\ strip f = f) rec.
Proof.
  intros Hrec.
  destruct (transform_line_Return _ _ _ _ _ _ _ Hrec) as [Hlen Hfield].
  apply Forall_lookup. intros i f Hf.
  assert (Hi : (i < length columns)%nat)
    by (rewrite <- Hlen; eapply lookup_lt_Some; eassumption).
  destruct (Hfield i Hi) as (s & _ & Hr). rewrite Hf in Hr.
  injection Hr as ->. apply emitted_field_trimmed.
Qed.

Lemma decimal_checked_range w bound n :
  forallb (decimal_checked w) (seq 0 (Z.to_nat bound)) = true ->
  0 <= n < bound ->
  py_int unicode_decimal int_max_str_digits (fmt_d w n) = Return n
  /\ Forall (fun c => c <> DOT /\ is_space c = false) (fmt_d w n)
  /\ fmt_d w n <> [].
Proof.
  clear unicode_lower. intros Hall Hn. rewrite forallb_forall in Hall.
  specialize (Hall (Z.to_nat n)). rewrite in_seq in Hall.
  unfold decimal_checked in Hall. rewrite Z2Nat.id in Hall by lia.
  specialize (Hall ltac:(lia)).
  rewrite !andb_true_iff in Hall. destruct Hall as [[[Hd Hl] Hne] Hv].
  apply Nat.leb_le in Hl. split; [|split].
  - rewrite py_int_ascii_short.
    + destruct (py_int ascii_only 0 (fmt_d w n)) as [v|e];
        [|discriminate]. apply Z.eqb_eq in Hv. now subst.
    + unfold ascii_short. rewrite andb_true_iff. split.
      * rewrite forallb_forall in Hd |- *. intros c Hc.
        now apply Hd, is_digit_char_facts in Hc.
      * apply Nat.leb_le. lia.
  - apply Forall_forall. intros c Hc. rewrite forallb_forall in Hd.
    apply list_elem_of_In, Hd, is_digit_char_facts in Hc. tauto.
  - intros H. rewrite H in Hne. discriminate Hne.
Qed.

(** X8. Every date that [datetime.date] accepts is accepted when written as
    day, month and year with dots, the day and the month with or without a
    leading zero, the year with four digits. *)
Theorem safe_iso_accepts_every_date (wd wm : nat) (y m d : Z) :
  (1 <= wd <= 2)%nat -> (1 <= wm <= 2)%nat ->
  valid_date y m d = true ->
  _safe_iso (fmt_d wd d ++ u "." ++ fmt_d wm m ++ u "." ++ fmt_d 4 y)
  = Return (isoformat {| year := y; month := m; day := d |}).
Proof.
  clear unicode_lower. intros Hwd Hwm Hv.
  pose proof (valid_date_bounds _ _ _ Hv) as (Hy & Hm & Hd).
  assert (H1 : forallb (decimal_checked 1) (seq 0 (Z.to_nat 100)) = true)
    by (vm_compute; reflexivity).
  assert (H2 : forallb (decimal_checked 2) (seq 0 (Z.to_nat 100)) = true)
    by (vm_compute; reflexivity).
  assert (H4 : forallb (decimal_checked 4) (seq 0 (Z.to_nat 10000)) = true)
    by (vm_compute; reflexivity).
  assert (HD : py_int unicode_decimal int_max_str_digits (fmt_d wd d)
               = Return d
               /\ Forall (fun c => c <> DOT /\ is_space c = false) (fmt_d wd d)
               /\ fmt_d wd d <> []).
  { assert (wd = 1 \/ wd = 2)%nat as [-> | ->] by lia;
      [exact (decimal_checked_range 1 100 d H1 ltac:(lia))
      |exact (decimal_checked_range 2 100 d H2 ltac:(lia))]. }
  assert (HM : py_int unicode_decimal int_max_str_digits (fmt_d wm m)
               = Return m
               /\ Forall (fun c => c <> DOT /\ is_space c = false) (fmt_d wm m)
               /\ fmt_d wm m <> []).
  { assert (wm = 1 \/ wm = 2)%nat as [-> | ->] by lia;
      [exact (decimal_checked_range 1 100 m H1 ltac:(lia))
      |exact (decimal_checked_range 2 100 m H2 ltac:(lia))]. }
  destruct (decimal_checked_range 4 10000 y H4 ltac:(lia)) as (HYv & HYc & HYn).
  destruct HD as (HDv & HDc & HDn), HM as (HMv & HMc & HMn).
  destruct (fmt_d_4 y ltac:(lia)) as [HYl _].
  rewrite safe_iso_returns. f_equal.
  apply (safe_iso_value_date unicode_decimal int_max_str_digits _
           {| year := y; month := m; day := d |}).
  rewrite strip_no_space.
  - exists (fmt_d wd d), (fmt_d wm m), (fmt_d 4 y). simpl.
    assert (Hnd : forall s, Forall (fun c => c <> DOT /\ is_space c = false) s ->
                            DOT ∉ s).
    { intros s Hs Hin. rewrite Forall_forall in Hs. now apply Hs in Hin as [? _]. }
    repeat split; auto.
  - rewrite !Forall_app. repeat split;
      try (eapply Forall_impl; [eassumption|]; simpl; tauto);
      repeat constructor.
Qed.

End DateFacts.

(** Three names, the second typed with blanks around it. *)
Lemma parse_columns_round_trip_witness :
  parse_columns (join_char COMMA [u "id"; u " name "; u "birthday"])
  = demo_columns.
Proof.
  apply parse_columns_round_trip.
  - discriminate.
  - repeat constructor; try discriminate;
      apply (bool_decide_unpack _); vm_compute; exact I.
  - constructor; [exists [], []; repeat constructor|].
    constructor; [exists [0x20%N], [0x20%N]; repeat constructor|].
    constructor; [exists [], []; repeat constructor|]. constructor.
Defined.

(** The ISO form of 5 March 2020 is itself mapped to NULL. *)
Lemma safe_iso_twice_is_NULL_witness :
  _safe_iso ascii_only 0 (u "2020-03-05") = Return NULL.
Proof.
  apply (safe_iso_twice_is_NULL ascii_only 0 (u "05.03.2020")).
  vm_compute. reflexivity.
Defined.

(** A date between a blank and a tab, and a line end. *)
Lemma safe_iso_ignores_outer_space_witness :
  _safe_iso ascii_only 0 ([0x20%N; 0x09%N] ++ u "05.03.2020" ++ [0x0D%N; 0x0A%N])
  = _safe_iso ascii_only 0 (u "05.03.2020").
Proof.
  apply safe_iso_ignores_outer_space; repeat constructor.
Defined.

(** The record of the line [2 | Bob |]. *)
Lemma record_fields_trimmed_nonempty_witness :
  Forall (fun f => f <> [] /\ strip f = f) [u "2"; u "Bob"; NULL].
Proof.
  apply (record_fields_trimmed_nonempty ascii_only 0 id_lower
           (ws_char_split 0x7C%N) demo_columns (u "2 | Bob |" ++ [0x0A%N])).
  vm_compute. reflexivity.
Defined.

(** 5 March 2020 written as [5.03.2020]. *)
Lemma safe_iso_accepts_every_date_witness :
  _safe_iso ascii_only 0
    (fmt_d 1 5 ++ u "." ++ fmt_d 2 3 ++ u "." ++ fmt_d 4 2020)
  = Return (isoformat {| year := 2020; month := 3; day := 5 |}).
Proof.
  apply (safe_iso_accepts_every_date ascii_only 0 1 2 2020 3 5);
    [lia | lia | reflexivity].
Defined.

Lemma set_files_restore (w : world) t c c0 :
  files w !! t = None ->
  set_files (delete t) (set_files (insert t c) (set_files (insert t c0) w)) = w.
Proof.
  intros H. destruct w as [f cs wb tn i cp sf rp]. unfold set_files.
  simpl in *. f_equal. rewrite !delete_insert_eq. now apply delete_id.
Qed.

(** ** [_get_source] *)

Lemma _get_source_local p w q text :
  stat_fails w p = false -> realpath w p = Return q ->
  files w !! q = Some text ->
  _get_source p w = (Return {| path := q; cleanup := ret tt |}, w).
Proof.
  intros Hstat Hreal Hfile.
  unfold _get_source, mbind, M_bind, bind, is_file, names_file, resolve.
  rewrite Hstat, Hreal.
  rewrite bool_decide_eq_true_2 by (rewrite Hfile; eauto).
  cbv beta iota. now rewrite Hreal.
Qed.


Lemma _get_source_keeps path_or_url w r w' :
  _get_source path_or_url w = (r, w') ->
  forall q t, files w !! q = Some t -> files w' !! q = Some t.
Proof.
  intros H.
  assert (Hkeep : forall v q t,
             files w !! tmp_name w = None -> files w !! q = Some t ->
             <[tmp_name w := v]> (files w) !! q = Some t).
  { intros v q t Ht Hq. rewrite lookup_insert_ne; [exact Hq|congruence]. }
  destruct (_get_source_cases _ _ _ _ H)
    as [(_ & _ & ->)
       |[(_ & q0 & text & _ & _ & _ & ->)
        |[(_ & _ & _ & _ & ->)
         |(_ & _ & _ & [(_ & _ & ->)
                       |[(Htmp & _ & _ & ->)|(Htmp & text & _ & _ & ->)]])]]];
    intros q t Hq; try assumption; simpl.
  - now apply Hkeep.
  - rewrite insert_insert_eq. now apply Hkeep.
Qed.

(** X10. [_get_source] never overwrites a file.  It ends with the [OSError]
    of [os.stat] where that fails, and it exits exactly on what [os.stat]
    can look at and is neither a file nor a URL; in both cases nothing is
    touched. *)
Theorem get_source_keeps_files (path_or_url : str) (w : world) r w' :
  _get_source path_or_url w = (r, w') ->
  (forall q t, files w !! q = Some t -> files w' !! q = Some t)
  /\ (stat_fails w path_or_url = true -> r = Raise OSError /\ w' = w)
  /\ (r = Raise SystemExit <->
      stat_fails w path_or_url = false /\ names_file w path_or_url = false
      /\ startswith_any path_or_url [u "http://"; u "https://"] = false)
  /\ (r = Raise SystemExit -> w' = w).
Proof.
  intros H. split; [exact (_get_source_keeps _ _ _ _ H)|].
  destruct (_get_source_cases _ _ _ _ H)
    as [(Hstat & -> & ->)
       |[(Hstat & q & text & Hreal & Hq & -> & ->)
        |[(Hstat & Hno & Hurl & -> & ->)
         |(Hstat & Hno & Hurl & [(_ & -> & ->)
                                |[(_ & _ & -> & ->)|(_ & text & _ & -> & ->)]])]]].
  - split; [auto|]. split; [|discriminate].
    split; [discriminate|]. intros (Hs & _). congruence.
  - split; [congruence|]. split; [|discriminate].
    split; [discriminate|]. intros (_ & Hn & _).
    unfold names_file in Hn. rewrite Hreal in Hn.
    rewrite bool_decide_eq_true_2 in Hn by (rewrite Hq; eauto). discriminate.
  - split; [congruence|]. split; [|reflexivity]. split; auto.
  - split; [congruence|]. split; [|discriminate].
    split; [discriminate|]. intros (_ & _ & Hu). congruence.
  - split; [congruence|]. split; [|discriminate].
    split; [discriminate|]. intros (_ & _ & Hu). congruence.
  - split; [congruence|]. split; [|discriminate].
    split; [discriminate|]. intros (_ & _ & Hu). congruence.
Qed.

(** ** The suggestion *)

(** X11. The table of escaped forms holds every separator the detector can
    return, so the lookup never raises [KeyError]: the bar is offered as [\|],
    the tab as [\t], the comma and the semicolon as they are. *)
Theorem suggestion_always_found (first_line : str) :
  exists sep hs,
    _guess_separator first_line = Return sep
    /\ dict_get human_suggest_table sep = Return hs
    /\ (sep = u "|" -> hs = u "\|")
    /\ (sep = [0x09%N] -> hs = u "\t")
    /\ (sep = u "," \/ sep = u ";" -> hs = sep).
Proof.
  destruct (guess_separator_spec first_line) as (i & sep & Hg & Hi & _).
  exists sep. rewrite Hg.
  destruct i as [|[|[|[|i]]]]; simpl in Hi; try discriminate;
    injection Hi as <-; eexists; (split; [reflexivity|]);
    (split; [reflexivity|]); repeat split; try discriminate;
    try reflexivity; intros [H|H]; try discriminate H; reflexivity.
Qed.

Lemma suggested_separator_eq text :
  exists sep,
    _guess_separator (hd [] (lines_of text)) = Return sep
    /\ dict_get human_suggest_table sep = Return (suggested_separator text).
Proof.
  destruct (guess_separator_spec (hd [] (lines_of text)))
    as (i & sep & Hg & Hi & _).
  exists sep. unfold suggested_separator. rewrite Hg. split; [reflexivity|].
  destruct i as [|[|[|[|i]]]]; simpl in Hi; try discriminate;
    injection Hi as <-; reflexivity.
Qed.


(** A name that is neither a file of the disk nor a URL. *)
Lemma get_source_keeps_files_witness :
  (forall q t, files (disk_world []) !! q = Some t ->
               files (disk_world []) !! q = Some t)
  /\ (stat_fails (disk_world []) (u "people.txt") = true ->
      @Raise source SystemExit = Raise OSError
      /\ disk_world [] = disk_world [])
  /\ (@Raise source SystemExit = Raise SystemExit <->
      stat_fails (disk_world []) (u "people.txt") = false
      /\ names_file (disk_world []) (u "people.txt") = false
      /\ startswith_any (u "people.txt") [u "http://"; u "https://"] = false)
  /\ (@Raise source SystemExit = Raise SystemExit ->
      disk_world [] = disk_world []).
Proof.
  apply (get_source_keeps_files (u "people.txt") (disk_world [])
           (Raise SystemExit) (disk_world [])).
  vm_compute. reflexivity.
Defined.

Lemma ask_loop_line default l input :
  ask_loop (Some default) (l :: input) = (Return (answer default l), input).
Proof. unfold answer. simpl. now destruct (strip l). Qed.

Lemma ask_loop_nonblank l input :
  strip l <> [] -> ask_loop None (l :: input) = (Return (strip l), input).
Proof. simpl. now destruct (strip l). Qed.

Lemma _get_source_cleanup_keeps path_or_url w src w1 :
  _get_source path_or_url w = (Return src, w1) ->
  forall wa r wb, cleanup src wa = (r, wb) ->
  forall q t, files w !! q = Some t -> files wb !! q = files wa !! q.
Proof.
  intros H.
  destruct (_get_source_cases _ _ _ _ H)
    as [(_ & Hr & _)
       |[(_ & q0 & text & _ & _ & Hr & _)
        |[(_ & _ & _ & Hr & _)
         |(_ & _ & _ & [(_ & Hr & _)
                       |[(_ & _ & Hr & _)|(Htmp & text & _ & Hr & _)]])]]];
    try discriminate Hr; injection Hr as ->; simpl; intros wa r wb.
  - intros Hc. now injection Hc as _ <-.
  - unfold unlink.
    destruct (files wa !! tmp_name w); intros Hc; injection Hc as _ <-;
      [|reflexivity].
    intros q t Hq. simpl. apply lookup_delete_ne. congruence.
Qed.

Section RunFacts.

Variable unicode_decimal : char -> option N.
Variable int_max_str_digits : nat.
Variable unicode_lower : char -> str.
Variable re_compile : str -> option Pattern.
Variable has_tqdm : bool.
Variable _select_file : world -> outcome str * list str.
Variable pg_csv_name : str -> str.

Local Abbreviation transform_line :=
  (transform_line unicode_decimal int_max_str_digits).
Local Abbreviation date_idx := (date_idx unicode_lower).
Local Abbreviation _process :=
  (_process unicode_decimal int_max_str_digits unicode_lower has_tqdm).
Local Abbreviation main :=
  (main unicode_decimal int_max_str_digits unicode_lower re_compile has_tqdm
     _select_file pg_csv_name).
Local Abbreviation rows_of := (rows_of unicode_decimal int_max_str_digits).

Lemma path_choice_files (b : bool) (x : str) w r w' :
  (if b then ret x else select_file _select_file) w = (r, w') ->
  files w' = files w.
Proof.
  destruct b.
  - unfold ret. intros H. now injection H as _ <-.
  - unfold select_file. destruct (_select_file w) as [r0 rest].
    intros H. now injection H as _ <-.
Qed.

Lemma _process_frame src dst sep_regex columns w r w' :
  _process src dst sep_regex columns w = (r, w') ->
  (forall p, p <> dst ->
     files w' !! p = files w !! p /\ csv_files w' !! p = csv_files w !! p)
  /\ web w' = web w /\ tmp_name w' = tmp_name w
  /\ stdin w' = stdin w /\ compiled w' = compiled w.
Proof.
  destruct (files w !! src) as [text|] eqn:Hsrc.
  - rewrite (_process_eq _ _ _ _ _ _ _ _ _ _ Hsrc).
    destruct has_tqdm; intros H; injection H as _ <-; simpl;
      (split; [|auto]); intros p Hp;
      rewrite lookup_delete_ne, lookup_insert_ne by congruence; auto.
  - rewrite (_process_missing _ _ _ _ _ _ _ _ _ Hsrc).
    intros H. injection H as _ <-. auto.
Qed.



End RunFacts.

Lemma posix_pg_csv_name_ends p :
  exists x, posix_pg_csv_name p = x ++ u "_pg.csv".
Proof.
  unfold posix_pg_csv_name.
  destruct (span_until 0x2F%N (rev p)) as [rname rdir].
  destruct (span_until 0x2E%N rname) as [rext rrest].
  eexists. rewrite app_assoc. reflexivity.
Qed.

Lemma posix_pg_csv_name_not_src p : posix_pg_csv_name p <> demo_src.
Proof.
  destruct (posix_pg_csv_name_ends p) as [x ->]. intros H.
  apply (f_equal (@rev char)) in H. rewrite rev_app_distr in H.
  vm_compute in H. discriminate H.
Qed.




Section EndToEnd.

Variable unicode_decimal : char -> option N.
Variable int_max_str_digits : nat.
Variable unicode_lower : char -> str.
Variable re_compile : str -> option Pattern.
Variable _select_file : world -> outcome str * list str.
Variable pg_csv_name : str -> str.

Local Abbreviation transform_line :=
  (transform_line unicode_decimal int_max_str_digits).
Local Abbreviation date_idx := (date_idx unicode_lower).
Local Abbreviation main :=
  (main unicode_decimal int_max_str_digits unicode_lower re_compile true
     _select_file pg_csv_name).
Local Abbreviation rows_of := (rows_of unicode_decimal int_max_str_digits).


End EndToEnd.



(** ** Sorting paths *)

Lemma str_leb_refl a : str_leb a a = true.
Proof.
  induction a as [|x a IH]; simpl; [reflexivity|].
  now rewrite N.eqb_refl, IH, orb_true_r.
Qed.

Lemma str_leb_total a b : str_leb a b = true \/ str_leb b a = true.
Proof.
  revert b. induction a as [|x a IH]; intros [|y b]; simpl; auto.
  destruct (N.ltb_spec x y) as [Hxy|Hxy]; [now left|].
  destruct (N.ltb_spec y x) as [Hyx|Hyx]; [now right|].
  assert (x = y) as -> by lia. rewrite N.eqb_refl. simpl. apply IH.
Qed.

Lemma str_leb_trans a b c :
  str_leb a b = true -> str_leb b c = true -> str_leb a c = true.
Proof.
  revert b c. induction a as [|x a IH]; intros [|y b] [|z c]; simpl; auto;
    try discriminate.
  rewrite !orb_true_iff, !andb_true_iff, !N.ltb_lt, !N.eqb_eq.
  intros [Hxy|[-> Hab]] [Hyz|[-> Hbc]]; eauto with lia.
Qed.

Lemma insert_sorted_perm x l : insert_sorted x l ≡ₚ x :: l.
Proof.
  induction l as [|y l IH]; simpl; [reflexivity|].
  destruct (str_leb x y); [reflexivity|].
  rewrite IH. apply Permutation_swap.
Qed.

Lemma py_sorted_perm l : py_sorted l ≡ₚ l.
Proof.
  induction l as [|x l IH]; simpl; [reflexivity|].
  now rewrite insert_sorted_perm, IH.
Qed.

Lemma insert_sorted_sorted x l :
  StronglySorted (fun a b => str_leb a b = true) l ->
  StronglySorted (fun a b => str_leb a b = true) (insert_sorted x l).
Proof.
  induction 1 as [|y l Hs IH Hy]; simpl; [repeat constructor|].
  destruct (str_leb x y) eqn:Hxy.
  - constructor; [now constructor|]. constructor; [exact Hxy|].
    eapply Forall_impl; [exact Hy|]. intros z Hz.
    eapply str_leb_trans; eassumption.
  - constructor; [exact IH|].
    rewrite insert_sorted_perm. constructor; [|exact Hy].
    destruct (str_leb_total x y); congruence.
Qed.

Lemma py_sorted_sorted l :
  StronglySorted (fun a b => str_leb a b = true) (py_sorted l).
Proof.
  induction l as [|x l IH]; simpl; [constructor|].
  now apply insert_sorted_sorted.
Qed.

(** ** Indexing *)

Lemma py_index_spec {A} (l : list A) (i : Z) :
  let n := Z.of_nat (length l) in
  ((0 <= i < n)%Z ->
     exists x, l !! Z.to_nat i = Some x /\ py_index l i = Return x)
  /\ ((- n <= i < 0)%Z ->
      exists x, l !! Z.to_nat (n + i) = Some x /\ py_index l i = Return x)
  /\ ((i < - n \/ n <= i)%Z -> py_index l i = Raise IndexError).
Proof.
  intros n. unfold py_index. fold n. repeat split.
  - intros Hi. destruct (Z.ltb_spec i 0); [lia|].
    destruct (Z.ltb_spec i 0); [lia|]. destruct (Z.leb_spec n i); [lia|].
    simpl. destruct (l !! Z.to_nat i) as [x|] eqn:Hx; [eauto|].
    apply lookup_ge_None in Hx. lia.
  - intros Hi. destruct (Z.ltb_spec i 0); [|lia].
    destruct (Z.ltb_spec (i + n) 0); [lia|].
    destruct (Z.leb_spec n (i + n)); [lia|]. simpl.
    replace (n + i)%Z with (i + n)%Z by lia.
    destruct (l !! Z.to_nat (i + n)) as [x|] eqn:Hx; [eauto|].
    apply lookup_ge_None in Hx. lia.
  - intros Hi. destruct (Z.ltb_spec i 0).
    + destruct (Z.ltb_spec (i + n) 0); [reflexivity|].
      destruct (Z.leb_spec n (i + n)); [reflexivity|lia].
    + destruct (Z.ltb_spec i 0); [lia|].
      destruct (Z.leb_spec n i); [reflexivity|lia].
Qed.

Section SelectFacts.

Variable unicode_decimal : char -> option N.
Variable int_max_str_digits : nat.
Variable unicode_lower : char -> str.
Variable listdir : str -> option (outcome (list str)).

Local Abbreviation select_loop :=
  (select_loop unicode_decimal int_max_str_digits unicode_lower listdir).
Local Abbreviation txt_names_of := (txt_names_of unicode_lower).
Local Abbreviation passed_over := (passed_over unicode_lower listdir).
Local Abbreviation names_url := (names_url listdir).

Lemma select_loop_passed_over w l input :
  passed_over w l = true -> select_loop w (l :: input) = select_loop w input.
Proof.
  unfold passed_over. cbn -[startswith_any u].
  destruct (strip l) as [|c p]; [reflexivity|].
  destruct (stat_fails w (c :: p)); [discriminate|].
  destruct (names_file w (c :: p)); [discriminate|].
  cbn -[startswith_any u].
  destruct (listdir (c :: p)) as [[names|e]|].
  - intros H. apply bool_decide_eq_true in H. now rewrite H.
  - discriminate.
  - now destruct (startswith_any (c :: p) _).
Qed.

Lemma select_loop_skip w junk input :
  Forall (fun l => passed_over w l = true) junk ->
  select_loop w (junk ++ input) = select_loop w input.
Proof.
  induction 1 as [|l junk Hl _ IH]; [reflexivity|].
  simpl app. now rewrite select_loop_passed_over.
Qed.

Lemma select_loop_stat_fails w l input :
  strip l <> [] -> stat_fails w (strip l) = true ->
  select_loop w (l :: input) = (Raise OSError, input).
Proof.
  intros Hne Hstat. cbn -[startswith_any u].
  destruct (strip l) as [|c p]; [congruence|]. now rewrite Hstat.
Qed.

Lemma select_loop_file w l input :
  strip l <> [] -> stat_fails w (strip l) = false ->
  names_file w (strip l) = true ->
  select_loop w (l :: input) = (realpath w (strip l), input).
Proof.
  intros Hne Hstat Hfile. cbn -[startswith_any u].
  destruct (strip l) as [|c p]; [congruence|]. now rewrite Hstat, Hfile.
Qed.

Lemma select_loop_url w l input :
  names_url w l -> select_loop w (l :: input) = (Return (strip l), input).
Proof.
  intros (Hstat & Hfile & Hdir & Hurl). cbn -[startswith_any u].
  destruct (strip l) as [|c p]; [discriminate Hurl|].
  now rewrite Hstat, Hfile, Hdir, Hurl.
Qed.

Lemma select_loop_unreadable w l input e :
  strip l <> [] -> stat_fails w (strip l) = false ->
  names_file w (strip l) = false -> listdir (strip l) = Some (Raise e) ->
  select_loop w (l :: input) = (Raise e, input).
Proof.
  intros Hne Hstat Hfile Hdir. cbn -[startswith_any u].
  destruct (strip l) as [|c p]; [congruence|].
  now rewrite Hstat, Hfile, Hdir.
Qed.

Lemma names_file_inv w p :
  names_file w p = true ->
  exists q, realpath w p = Return q /\ is_Some (files w !! q).
Proof.
  unfold names_file. destruct (realpath w p) as [q|e]; [|discriminate].
  intros H. apply bool_decide_eq_true in H. eauto.
Qed.

(** X18. The chooser passes over the lines that name nothing usable.  On
    the first other line it ends: with the [OSError] of [os.stat] where
    that fails; with the resolved path of the file the line names; with
    the error of [os.listdir] on a directory that may not be read; with
    the line itself, trimmed, when it is a URL.  When no such line is
    typed, [input()] ends it with [EOFError]. *)
Theorem select_file_first_usable_line (w : world) (junk : list str) :
  Forall (fun l => passed_over w l = true) junk ->
  select_loop w junk = (Raise EOFError, [])
  /\ (forall l rest,
        strip l <> [] -> stat_fails w (strip l) = true ->
        select_loop w (junk ++ l :: rest) = (Raise OSError, rest))
  /\ (forall l rest,
        strip l <> [] -> stat_fails w (strip l) = false ->
        names_file w (strip l) = true ->
        exists q,
          realpath w (strip l) = Return q /\ is_Some (files w !! q)
          /\ select_loop w (junk ++ l :: rest) = (Return q, rest))
  /\ (forall l rest e,
        strip l <> [] -> stat_fails w (strip l) = false ->
        names_file w (strip l) = false ->
        listdir (strip l) = Some (Raise e) ->
        select_loop w (junk ++ l :: rest) = (Raise e, rest))
  /\ (forall l rest,
        names_url w l ->
        select_loop w (junk ++ l :: rest) = (Return (strip l), rest)).
Proof.
  intros Hjunk. split; [|split; [|split; [|split]]].
  - rewrite <- (app_nil_r junk). now rewrite select_loop_skip.
  - intros l rest Hne Hstat. rewrite select_loop_skip by assumption.
    now apply select_loop_stat_fails.
  - intros l rest Hne Hstat Hfile. rewrite select_loop_skip by assumption.
    destruct (names_file_inv _ _ Hfile) as (q & Hq & Hsome).
    exists q. split; [exact Hq|]. split; [exact Hsome|].
    rewrite select_loop_file by assumption. now rewrite Hq.
  - intros l rest e Hne Hstat Hfile Hdir.
    rewrite select_loop_skip by assumption.
    now apply select_loop_unreadable.
  - intros l rest Hl. rewrite select_loop_skip by assumption.
    now apply select_loop_url.
Qed.


(** ** The chooser in a run *)

Variable re_compile : str -> option Pattern.
Variable has_tqdm : bool.
Variable pg_csv_name : str -> str.

Local Abbreviation main :=
  (main unicode_decimal int_max_str_digits unicode_lower re_compile has_tqdm
     (_select_file unicode_decimal int_max_str_digits unicode_lower listdir)
     pg_csv_name).

Lemma bind_same {A B} (c1 c2 : M A) (k : A -> M B) w1 w2 :
  c1 w1 = c2 w2 -> bind c1 k w1 = bind c2 k w2.
Proof. unfold bind. now intros ->. Qed.

Lemma bind_Return {A B} (c : M A) (k : A -> M B) w a w1 :
  c w = (Return a, w1) -> bind c k w = k a w1.
Proof. unfold bind. now intros ->. Qed.

(** X21. A run without an argument, in which the first usable line typed
    names a file or a URL, goes on as the run with that line, trimmed, as
    its argument and the lines after it as its input.  For a file this
    takes that resolving its resolved path gives the same path again, and
    that [os.stat] can look at it. *)
Theorem typed_path_same_as_argument
    (prog : str) (w : world) (junk : list str) (l : str) (rest : list str) :
  stdin w = junk ++ l :: rest ->
  Forall (fun l => passed_over w l = true) junk ->
  strip l <> [] ->
  (stat_fails w (strip l) = false
   /\ exists q,
        realpath w (strip l) = Return q /\ is_Some (files w !! q)
        /\ stat_fails w q = false /\ realpath w q = Return q)
  \/ names_url w l ->
  main [prog] w = main [prog; strip l] (set_stdin rest w).
Proof.
  intros Hin Hjunk Hne Hl. unfold main.
  change (2 <? length [prog])%nat with false.
  change (2 <? length [prog; strip l])%nat with false.
  change (length [prog] =? 2)%nat with false.
  change (length [prog; strip l] =? 2)%nat with true. cbv iota.
  unfold mbind, M_bind.
  change (nth 1 [prog; strip l] []) with (strip l).
  set (chooser := select_file (_select_file unicode_decimal
                                 int_max_str_digits unicode_lower listdir)).
  assert (Hsel : forall q, select_loop w (l :: rest) = (Return q, rest) ->
                           chooser w = (Return q, set_stdin rest w)).
  { intros q Hq. unfold chooser, select_file, _select_file.
    rewrite Hin, select_loop_skip by assumption. now rewrite Hq. }
  rewrite (bind_Return (ret (strip l)) _ _ (strip l) (set_stdin rest w))
    by reflexivity.
  destruct Hl as [(Hstat & q & Hq & [text Htext] & Hstatq & Hqq)|Hurl].
  - assert (Hfile : names_file w (strip l) = true).
    { unfold names_file. rewrite Hq.
      apply bool_decide_eq_true_2. rewrite Htext. eauto. }
    rewrite (bind_Return chooser _ _ q (set_stdin rest w))
      by (apply Hsel; rewrite select_loop_file by assumption; now rewrite Hq).
    apply bind_same.
    rewrite (_get_source_local (strip l) _ q text) by assumption.
    now apply _get_source_local with (text := text).
  - now rewrite (bind_Return chooser _ _ (strip l) (set_stdin rest w))
      by (apply Hsel; now apply select_loop_url).
Qed.

End SelectFacts.

(** A blank line, a name that is no file and a directory entry that is
    no [.txt] file are passed over. *)
Lemma select_file_first_usable_line_witness :
  select_loop ascii_only 0 ascii_lower demo_listdir (disk_world [])
    [u ""; u "people.txt"; u "/data/readme.md"]
  = (Raise EOFError, [])
  /\ (forall l rest,
        strip l <> [] -> stat_fails (disk_world []) (strip l) = true ->
        select_loop ascii_only 0 ascii_lower demo_listdir (disk_world [])
          ([u ""; u "people.txt"; u "/data/readme.md"] ++ l :: rest)
        = (Raise OSError, rest))
  /\ (forall l rest,
        strip l <> [] -> stat_fails (disk_world []) (strip l) = false ->
        names_file (disk_world []) (strip l) = true ->
        exists q,
          realpath (disk_world []) (strip l) = Return q
          /\ is_Some (files (disk_world []) !! q)
          /\ select_loop ascii_only 0 ascii_lower demo_listdir (disk_world [])
               ([u ""; u "people.txt"; u "/data/readme.md"] ++ l :: rest)
             = (Return q, rest))
  /\ (forall l rest e,
        strip l <> [] -> stat_fails (disk_world []) (strip l) = false ->
        names_file (disk_world []) (strip l) = false ->
        demo_listdir (strip l) = Some (Raise e) ->
        select_loop ascii_only 0 ascii_lower demo_listdir (disk_world [])
          ([u ""; u "people.txt"; u "/data/readme.md"] ++ l :: rest)
        = (Raise e, rest))
  /\ (forall l rest,
        names_url demo_listdir (disk_world []) l ->
        select_loop ascii_only 0 ascii_lower demo_listdir (disk_world [])
          ([u ""; u "people.txt"; u "/data/readme.md"] ++ l :: rest)
        = (Return (strip l), rest)).
Proof.
  apply (select_file_first_usable_line ascii_only 0 ascii_lower demo_listdir
           (disk_world []) [u ""; u "people.txt"; u "/data/readme.md"]).
  repeat constructor.
Defined.


(** The example source, typed after a blank line. *)
Lemma typed_path_same_as_argument_witness :
  main ascii_only 0 ascii_lower toy_compile true
    (_select_file ascii_only 0 ascii_lower demo_listdir) posix_pg_csv_name
    [demo_prog]
    (disk_world [u ""; u " /data/people.txt"; u "";
                 u "id, name, birthday"])
  = main ascii_only 0 ascii_lower toy_compile true
      (_select_file ascii_only 0 ascii_lower demo_listdir) posix_pg_csv_name
      [demo_prog; strip (u " /data/people.txt")]
      (set_stdin [u ""; u "id, name, birthday"]
         (disk_world [u ""; u " /data/people.txt"; u "";
                      u "id, name, birthday"])).
Proof.
  apply (typed_path_same_as_argument ascii_only 0 ascii_lower demo_listdir
           toy_compile true posix_pg_csv_name demo_prog
           (disk_world [u ""; u " /data/people.txt"; u "";
                        u "id, name, birthday"])
           [u ""] (u " /data/people.txt") [u ""; u "id, name, birthday"]).
  - reflexivity.
  - repeat constructor.
  - vm_compute. discriminate.
  - left. split; [reflexivity|]. exists demo_src.
    split; [reflexivity|]. split; [|split; reflexivity].
    vm_compute. eauto.
Defined.
